(** * The filter-to-SQL query compiler of api/src/utils/apply-query.ts

    A shallow embedding of [applyQuery], [applyFilter] and their helpers.
    The Knex query builder is an external collaborator: a builder is
    represented by the sequence of method calls made on it, in call order.
    Callbacks that Knex only invokes when it compiles the query are kept as
    deferred outcomes inside the call that registered them. *)

From stdpp Require Import gmap strings list.
From Stdlib Require Import ZArith Ascii String.

Set Warnings "-register-all".
#[local] Open Scope string_scope.
#[local] Open Scope Z_scope.
#[local] Open Scope list_scope.

(** ** JavaScript values and the runtime functions the compiler relies on *)

Module Js.

(** Loosely typed data ([any]): filter objects, comparands and sub-filters.
    An object is its list of own enumerable properties in enumeration
    order; numbers are restricted to integers. *)
Inductive value :=
| VUndefined
| VNull
| VBool (b : bool)
| VNum (n : Z)
| VStr (s : string)
| VArr (items : list value)
| VObj (props : list (string * value)).

Inductive exception :=
| InvalidQueryException (message : string)
| TypeError
| NotARecord.
(* [NotARecord]: a non-empty array or string was passed where the source is
   typed [Record<string, any>]; enumerating its index properties is outside
   the model. *)

(** [s.split(sep)] for a one-character separator. *)
Fixpoint split (sep : ascii) (s : string) : list string :=
  match s with
  | EmptyString => [""]
  | String c s' =>
      if Ascii.eqb c sep then "" :: split sep s'
      else match split sep s' with
           | w :: ws => String c w :: ws
           | [] => [String c ""]
           end
  end.

(** [s.startsWith('_')] *)
Definition startsWith_underscore (s : string) : bool :=
  match s with
  | String c _ => Ascii.eqb c "_"
  | EmptyString => false
  end.

(** Truthiness of a value, of an optional string and of an optional number. *)
Definition truthy (v : value) : bool :=
  match v with
  | VUndefined | VNull => false
  | VBool b => b
  | VNum n => negb (n =? 0)
  | VStr s => negb (String.eqb s "")
  | VArr _ | VObj _ => true
  end.

Definition truthy_str (o : option string) : bool :=
  match o with
  | Some s => negb (String.eqb s "")
  | None => false
  end.

Definition truthy_num (o : option Z) : bool :=
  match o with
  | Some n => negb (n =? 0)
  | None => false
  end.

(** Arithmetic.  The numbers of a query description are integers; the
    runtime holds them as IEEE 754 doubles and rounds what it computes: the
    result of [-] and [*] is the double nearest to the exact result, with
    ties going to the even significand of 53 bits, and an infinity when that
    is beyond the doubles.  The zero is taken without its sign. *)
Inductive number := Finite (z : Z) | Infinity (negative : bool).

Definition nearest (z : Z) : Z :=
  let a := Z.abs z in
  let e := Z.log2 a - 52 in
  if e <=? 0 then z
  else
    let q := Z.shiftr a e in
    let r := a - Z.shiftl q e in
    let half := Z.shiftl 1 (e - 1) in
    let q' := if r <? half then q
              else if half <? r then q + 1
              else if Z.even q then q else q + 1 in
    Z.sgn z * Z.shiftl q' e.

Definition to_double (z : Z) : number :=
  let n := nearest z in
  if Z.abs n <? 2 ^ 1024 then Finite n else Infinity (z <? 0).

(** [a - b], for a double [a] and a small [b]: the result is finite. *)
Definition minus (a b : Z) : Z := nearest (a - b).

(** [a * b] *)
Definition times (a b : Z) : number := to_double (a * b).

(** [a || b] on an optional string and a string. *)
Definition or_else (o : option string) (d : string) : string :=
  match o with
  | Some s => if String.eqb s "" then d else s
  | None => d
  end.

(** [Object.keys(v).length]; throws on [null] and [undefined]. *)
Definition keys_length (v : value) : exception + nat :=
  match v with
  | VUndefined | VNull => inl TypeError
  | VBool _ | VNum _ => inr 0%nat
  | VStr s => inr (String.length s)
  | VArr items => inr (List.length items)
  | VObj props => inr (List.length props)
  end.

(** [Object.entries(v)] for a value used as a [Record<string, any>]. *)
Definition entries (v : value) : exception + list (string * value) :=
  match v with
  | VUndefined | VNull => inl TypeError
  | VBool _ | VNum _ => inr []
  | VStr s => if String.eqb s "" then inr [] else inl NotARecord
  | VArr items => match items with [] => inr [] | _ => inl NotARecord end
  | VObj props => inr props
  end.

(** [typeof v === 'string' ? v.split(',') : v] *)
Definition split_if_string (v : value) : value :=
  match v with
  | VStr s => VArr (map VStr (split "," s))
  | _ => v
  end.

(** [v.length !== 2], for a [v] that is not [undefined]. *)
Definition length_is_not_2 (v : value) : exception + bool :=
  match v with
  | VUndefined | VNull => inl TypeError
  | VBool _ | VNum _ => inr true
  | VStr s => inr (negb (Nat.eqb (String.length s) 2))
  | VArr items => inr (negb (Nat.eqb (List.length items) 2))
  | VObj props =>
      match List.find (fun kv => String.eqb (fst kv) "length") props with
      | Some (_, VNum 2) => inr false
      | _ => inr true
      end
  end.

Definition is_undefined (v : value) : bool :=
  match v with VUndefined => true | _ => false end.

Definition is_false (v : value) : bool :=
  match v with VBool false => true | _ => false end.

(** [Array.isArray(v) ? v.filter((val) => val !== undefined) : v] *)
Definition drop_undefined (v : value) : value :=
  match v with
  | VArr items => VArr (List.filter (fun x => negb (is_undefined x)) items)
  | _ => v
  end.

End Js.

Import Js.

(** ** lodash: [get] and [set] on the alias map *)

Module Lodash.

(** The alias map is a plain object used as a nested dictionary: every
    property holds either an alias or a further dictionary.  Only own
    properties are modelled (no inherited ones, and none on strings), and
    the array that [set] creates in front of an index-like key is not told
    apart from an object. *)
Inductive amap :=
| AStr (alias : string)
| AObj (props : gmap string amap).

Definition props_of (m : amap) : gmap string amap :=
  match m with
  | AObj g => g
  | AStr _ => ∅
  end.

(** [get(object, path)] with an array path. *)
Fixpoint get (object : amap) (path : list string) : option amap :=
  match path with
  | [] => Some object
  | key :: path' =>
      match props_of object !! key with
      | Some child => get child path'
      | None => None
      end
  end.

(** [set(object, path, value)]: intermediate properties that do not hold an
    object are replaced by a fresh one. *)
Fixpoint set (object : amap) (path : list string) (value : string) : amap :=
  match path with
  | [] => object
  | [key] => AObj (<[key := AStr value]> (props_of object))
  | key :: path' =>
      let child :=
        match props_of object !! key with
        | Some (AObj g) => AObj g
        | _ => AObj ∅
        end in
      AObj (<[key := set child path' value]> (props_of object))
  end.

(** How a value read from the alias map behaves as a string, both in a
    template literal and as a path key. *)
Definition to_alias (o : option amap) : option string :=
  match o with
  | Some (AStr alias) => Some alias
  | Some (AObj _) => Some "[object Object]"
  | None => None
  end.

End Lodash.

Import Lodash.

(** ** The schema *)

(** Modelled from the spec: the declarations of [SchemaOverview] and
    [Relation] (../types) are not part of the sources.  A schema maps a
    collection name to its primary key field and its fields (each with a
    type), and carries an ordered sequence of relations; a relation has a
    source collection, a source field, a related collection (absent for
    many-to-any) and optional metadata with the reverse accessor [one_field]
    and the discriminator column [one_collection_field]. *)
Module Relation.
Record Meta := {
  one_field : option string;
  one_collection_field : option string;
}.

Record t := {
  collection : string;
  field : string;
  related_collection : option string;
  meta : option Meta;
}.
End Relation.

Abbreviation Relation := Relation.t.

Module Schema.
Record FieldOverview := { type : string }.

Record CollectionOverview := {
  primary : string;
  fields : list (string * FieldOverview);
}.

Record SchemaOverview := {
  collections : gmap string CollectionOverview;
  relations : list Relation;
}.
End Schema.

Abbreviation SchemaOverview := Schema.SchemaOverview.

Inductive RelationType := m2o | o2m | m2a.

(** [relation.related_collection === c] *)
Definition related_is (relation : Relation) (c : string) : bool :=
  match Relation.related_collection relation with
  | Some r => String.eqb r c
  | None => false
  end.

(** [relation.meta?.one_field === f] *)
Definition one_field_is (relation : Relation) (f : string) : bool :=
  match Relation.meta relation with
  | Some m => match Relation.one_field m with
              | Some g => String.eqb g f
              | None => false
              end
  | None => false
  end.

(** Modelled from the spec: getRelationType (./get-relation-type) is not part
    of the sources.  A relation reached through its own field is
    many-to-one, or many-to-any when its related collection is absent; a
    relation reached from its related collection through [one_field] is
    one-to-many. *)
Definition getRelationType (relation : Relation) (c f : string)
  : option RelationType :=
  if String.eqb (Relation.collection relation) c
     && String.eqb (Relation.field relation) f then
    match Relation.related_collection relation with
    | None => Some m2a
    | Some _ => Some m2o
    end
  else if related_is relation c && one_field_is relation f then Some o2m
  else None.

(** [relationType === t] *)
Definition type_is (relationType : option RelationType) (t : RelationType)
  : bool :=
  match relationType, t with
  | Some m2o, m2o | Some o2m, o2m | Some m2a, m2a => true
  | _, _ => false
  end.

(** [o !== undefined] *)
Definition defined (o : option string) : bool :=
  match o with
  | Some _ => true
  | None => false
  end.

(** The predicate of the three [relations.find] calls. *)
Definition relation_matches (parentCollection pathRoot : string)
    (relation : Relation) : bool :=
  (String.eqb (Relation.collection relation) parentCollection
   && String.eqb (Relation.field relation) pathRoot)
  || (related_is relation parentCollection && one_field_is relation pathRoot).

(** ** The query builder *)

Inductive logical := And | Or.

(** Modelled from the spec: getColumn (./get-column) is not part of the
    sources; given a table and a column it returns a quoted column reference
    usable as a raw fragment.  The reference is kept symbolic. *)
Inductive Raw := Ref (table : string) (column : option string).

Definition getColumn (table : string) (column : option string) : Raw :=
  Ref table column.

(** A column argument: the raw reference or the plain dotted key. *)
Inductive column_arg :=
| Selection (r : Raw)
| Key (key : string).

(** A bound comparand: the value itself or a template literal around it. *)
Inductive binding :=
| Val (v : value)
| Template (before : string) (v : value) (after : string).

(** Modelled from the spec: the geometry helper (../database/helpers/geometry)
    is not part of the sources; each of its functions maps a column
    reference and a value to a raw SQL fragment, kept symbolic here. *)
Inductive geometry_raw := Geometry (fn : string) (key : string) (v : value).

Inductive join_on :=
| On (first op second : string)
| AndOnVal (col : option string) (op : string) (val : string).

(** One method call on a builder.  [l] is the [and] or [or] property read
    before the call in [dbQuery[logical]] ([And], the default of Knex, for a
    call made on the builder itself).  [deferred] arguments are callbacks
    Knex runs when it compiles the query: the calls they make on their own
    builder, or the exception they raise at that time. *)
Inductive clause :=
| OrderBy (columns : list (Raw * string))
| Limit (n : Z)
| Offset (n : number)
| LeftJoin (alias table first second : string)
| LeftJoinWith (alias table : string) (conditions : list join_on)
| Where (l : logical) (col : column_arg) (op : string) (b : binding)
| WhereNot (l : logical) (col : column_arg) (op : option string) (b : binding)
| WhereNull (l : logical) (col : column_arg)
| WhereNotNull (l : logical) (col : column_arg)
| WhereIn (l : logical) (col : column_arg) (values : value)
| WhereNotIn (l : logical) (col : column_arg) (values : value)
| WhereBetween (l : logical) (col : column_arg) (values : value)
| WhereNotBetween (l : logical) (col : column_arg) (values : value)
| WhereRaw (l : logical) (raw : geometry_raw)
| WhereWrapped (l : logical) (deferred : exception + list clause)
| AndWhere (l : logical) (deferred : exception + list clause)
| WhereInSubquery (l : logical) (col : string)
    (deferred : exception + list clause)
| OrWhereRawLike (col : string) (pattern : string)
| OrWhereEq (col : string) (b : binding)
| Select (alias column : string)
| From (table : string)
| GroupBy (columns : list string)
| Aggregate (method field : string) (as_ : string).

(** ** State and exceptions *)

(** What one compilation mutates: the builder the current code writes to, the
    alias map of the enclosing [applyFilter], and the number of aliases drawn
    from the generator so far. *)
Record state := mkState {
  dbQuery : list clause;
  aliasMap : amap;
  drawn : nat;
}.

Definition M (A : Type) : Type := state -> (exception + A) * state.

Definition ret {A} (a : A) : M A := fun s => (inr a, s).

Definition bind {A B} (m : M A) (k : A -> M B) : M B :=
  fun s => match m s with
           | (inr a, s') => k a s'
           | (inl e, s') => (inl e, s')
           end.

Definition throw {A} (e : exception) : M A := fun s => (inl e, s).

Definition lift {A} (r : exception + A) : M A :=
  match r with
  | inl e => throw e
  | inr a => ret a
  end.

Declare Scope m_scope.
Delimit Scope m_scope with M.
Notation "x <- m ;; k" := (bind m (fun x => k))
  (at level 100, m at next level, right associativity) : m_scope.
Notation "m ;; k" := (bind m (fun _ => k))
  (at level 100, right associativity) : m_scope.
#[local] Open Scope m_scope.

(** A method call on the current builder. *)
Definition call (c : clause) : M unit :=
  fun s => (inr tt, mkState (dbQuery s ++ [c]) (aliasMap s) (drawn s)).

Definition when (b : bool) (m : M unit) : M unit :=
  if b then m else ret tt.

(** A callback that the builder keeps and runs later on a builder of its
    own: its outcome is recorded, an exception it raises does not reach the
    code that registered it. *)
Definition deferred (body : M unit) : M (exception + list clause) :=
  fun s =>
    match body (mkState [] (aliasMap s) (drawn s)) with
    | (inr _, s') =>
        (inr (inr (dbQuery s')), mkState (dbQuery s) (aliasMap s) (drawn s'))
    | (inl e, s') =>
        (inr (inl e), mkState (dbQuery s) (aliasMap s) (drawn s'))
    end.

(** [const aliasMap = {}]: the body runs with an alias map of its own. *)
Definition with_aliasMap (body : M unit) : M unit :=
  fun s =>
    match body (mkState (dbQuery s) (AObj ∅) (drawn s)) with
    | (r, s') => (r, mkState (dbQuery s') (aliasMap s) (drawn s'))
    end.

Definition get_aliasMap : M amap := fun s => (inr (aliasMap s), s).

Definition set_aliasMap (path : list string) (alias : string) : M unit :=
  fun s => (inr tt, mkState (dbQuery s) (set (aliasMap s) path alias) (drawn s)).

Section Iteration.
Context {A : Type} (f : A -> M unit).

(** [items.forEach(f)] and the body of a [for ... of] loop. *)
Definition forEach : list A -> M unit :=
  fix go (items : list A) : M unit :=
    match items with
    | [] => ret tt
    | x :: rest => f x ;; go rest
    end.
End Iteration.

(** [value.some((subFilter) => Object.keys(subFilter).length === 0)] *)
Fixpoint some_empty (items : list value) : exception + bool :=
  match items with
  | [] => inr false
  | x :: rest =>
      match keys_length x with
      | inl e => inl e
      | inr O => inr true
      | inr (S _) => some_empty rest
      end
  end.

(** ** Filter paths and operators *)

Definition is_combinator (key : string) : bool :=
  String.eqb key "_or" || String.eqb key "_and".

(** [getFilterPath(key, value)] *)
Fixpoint getFilterPath (key : string) (value : value)
  : exception + list string :=
  match value with
  | VUndefined | VNull => inl TypeError
  | VObj [] => inl TypeError
  | VObj ((k, v) :: _) =>
      if startsWith_underscore k then inr [key]
      else match getFilterPath k v with
           | inl e => inl e
           | inr rest => inr (key :: rest)
           end
  | VBool _ | VNum _ | VStr _ | VArr _ => inr [key]
  end.

(** [getOperation(key, value)] *)
Fixpoint getOperation (key : string) (value : value) {struct value}
  : exception + (string * Js.value) :=
  if startsWith_underscore key && negb (is_combinator key) then inr (key, value)
  else match value with
       | VObj [] => inl TypeError
       | VObj ((k, v) :: _) => getOperation k v
       | _ => inr ("_eq", value)
       end.

Definition scope_required : exception :=
  InvalidQueryException
    "You have to provide a collection scope when filtering on a many-to-any item".

(** [x!] on a nullable name, where it is used as a property key or inside a
    template literal. *)
Definition nonnull (o : option string) : string :=
  match o with
  | Some name => name
  | None => "null"
  end.

(** Modelled from the spec: the declaration of [Query] (../types) is not part
    of the sources.  A query description has a sort (column and direction), a
    limit, an offset, a page, a filter, a search string, a group and an
    aggregate map from operation name to field names; every part is
    optional ([VUndefined] for an absent filter). *)
Module Query.
Record Sort := { column : string; order : string }.

Record t := {
  sort : option (list Sort);
  limit : option Z;
  offset : option Z;
  page : option Z;
  filter : value;
  search : option string;
  group : option (list string);
  aggregate : option (list (string * option (list string)));
}.
End Query.

Abbreviation Query := Query.t.

(** The query [{ filter: value }]. *)
Definition filter_only (value : value) : Query :=
  {| Query.sort := None; Query.limit := None; Query.offset := None;
     Query.page := None; Query.filter := value; Query.search := None;
     Query.group := None; Query.aggregate := None |}.

Definition quote : string := String (ascii_of_nat 34) EmptyString.

Definition not_relational (parentCollection pathRoot : string) : exception :=
  InvalidQueryException
    (quote +:+ parentCollection +:+ "." +:+ pathRoot +:+ quote
     +:+ " is not a relational field").

(** ** The filter emitter

    [emitFilter] of the emitter whose filters transform a payload.  The
    listeners registered for the event, which eventemitter2 provides, are
    given in call order; a listener maps the current payload and the extra
    arguments to its result ([VUndefined] when it returns nothing) or to the
    error it throws or rejects with. *)
Module Emitter.
Section Listeners.
Context {error : Type}.

Definition AsyncListener : Type := value -> list value -> error + value.

(** One step of the [reduce]: the listener runs on the resolved current
    payload, unless an earlier step was rejected; an undefined result keeps
    the current payload. *)
Definition step (args : list value) (current : error + value)
    (listener : AsyncListener) : error + value :=
  match current with
  | inl e => inl e
  | inr payload =>
      match listener payload args with
      | inl e => inl e
      | inr result => inr (if is_undefined result then payload else result)
      end
  end.

(** [emitFilter(event, payload, ...args)] *)
Definition emitFilter (listeners : list AsyncListener) (payload : value)
    (args : list value) : error + value :=
  fold_left (step args) listeners (inr payload).

End Listeners.
End Emitter.

(** ** A schema to run the compiler on

    Pages have articles (one-to-many, the reverse of [articles.page_id]) and
    a many-to-any [item]; articles have an author; authors have a company. *)
Module Example.

Definition generateAlias (n : nat) : string :=
  String (ascii_of_nat (97 + n mod 26)) "aaaa".

Definition unchanged (text : string) : string := text.
Definition not_a_number (text : string) : option value := None.
Definition not_a_uuid (text : string) : bool := false.

Definition relation (collection field : string)
    (related_collection one_field one_collection_field : option string)
  : Relation :=
  {| Relation.collection := collection;
     Relation.field := field;
     Relation.related_collection := related_collection;
     Relation.meta :=
       Some {| Relation.one_field := one_field;
               Relation.one_collection_field := one_collection_field |} |}.

Definition keyed_by_id : Schema.CollectionOverview :=
  {| Schema.primary := "id"; Schema.fields := [] |}.

Definition schema : SchemaOverview :=
  {| Schema.collections :=
       <["pages" := keyed_by_id]>
         (<["articles" := keyed_by_id]>
            (<["authors" := keyed_by_id]>
               (<["companies" := keyed_by_id]> ∅)));
     Schema.relations :=
       [ relation "articles" "author" (Some "authors") None None;
         relation "articles" "page_id" (Some "pages") (Some "articles") None;
         relation "authors" "company" (Some "companies") None None;
         relation "pages" "item" None None (Some "collection") ] |}.

(** [{ operator: comparand }] *)
Definition leaf (operator : string) (comparand : value) : value :=
  VObj [(operator, comparand)].

(** [{ field: inner }] *)
Definition nested (field : string) (inner : value) : value :=
  VObj [(field, inner)].

Definition initial : state := mkState [] (AObj ∅) 0%nat.

End Example.

Section Compiler.

(** [generateAlias] draws random identifiers: the n-th draw of a
    compilation is [generateAlias n]. *)
Variable generateAlias : nat -> string.

(** applyFunctionToColumnName (./apply-function-to-column-name), and the
    runtime functions used by the search compiler: [toLowerCase],
    [Number] ([None] for NaN) and uuid-validate. *)
Variable applyFunctionToColumnName : string -> string.
Variable toLowerCase : string -> string.
Variable Number : string -> option value.
Variable validate : string -> bool.

Variable schema : SchemaOverview.

Definition draw_alias : M string :=
  fun s => (inr (generateAlias (drawn s)),
            mkState (dbQuery s) (aliasMap s) (S (drawn s))).

(** [schema.collections[name].primary] *)
Definition primary_of (name : string) : M string :=
  match Schema.collections schema !! name with
  | Some c => ret (Schema.primary c)
  | None => throw TypeError
  end.

(** [relations.find(...)] *)
Definition find_relation (parentCollection pathRoot : string)
  : option Relation :=
  List.find (relation_matches parentCollection pathRoot) (Schema.relations schema).

(** [part.split(':')[0]] and [part.split(':')[1]] *)
Definition path_root (part : string) : string :=
  hd part (split ":" part).

Definition path_scope (part : string) : option string :=
  nth_error (split ":" part) 1.

Definition alias_path (parentAlias : option string) (pathParts : list string)
  : list string :=
  match parentAlias with
  | Some a => if truthy_str parentAlias then a :: pathParts else pathParts
  | None => pathParts
  end.

(** *** The join planner *)

(** [followRelation] of [addJoin]. *)
Fixpoint addJoin_followRelation (subQuery : bool) (pathParts : list string)
    (parentCollection : string) (parentAlias : option string)
    {struct pathParts} : M unit :=
  match pathParts with
  | [] => throw TypeError
  | part :: rest =>
      let pathRoot := path_root part in
      match find_relation parentCollection pathRoot with
      | None => ret tt
      | Some relation =>
          let relationType :=
            getRelationType relation parentCollection pathRoot in
          let parentName := or_else parentAlias parentCollection in
          alias <- draw_alias ;;
          set_aliasMap (alias_path parentAlias pathParts) alias ;;
          when (type_is relationType m2o)
            (pk <- primary_of (nonnull (Relation.related_collection relation)) ;;
             call (LeftJoin alias (nonnull (Relation.related_collection relation))
                     (parentName +:+ "." +:+ Relation.field relation)
                     (alias +:+ "." +:+ pk))) ;;
          when (type_is relationType m2a)
            (let pathScope := path_scope part in
             if negb (truthy_str pathScope) then throw scope_required
             else
               pk <- primary_of (nonnull pathScope) ;;
               discriminator <-
                 match Relation.meta relation with
                 | Some m => ret (Relation.one_collection_field m)
                 | None => throw TypeError
                 end ;;
               call (LeftJoinWith alias (nonnull pathScope)
                       [On (parentName +:+ "." +:+ Relation.field relation) "="
                           (alias +:+ "." +:+ pk);
                        AndOnVal discriminator "=" (nonnull pathScope)])) ;;
          when (type_is relationType o2m
                && (subQuery || defined parentAlias))
            (pk <- primary_of (nonnull (Relation.related_collection relation)) ;;
             call (LeftJoin alias (Relation.collection relation)
                     (parentName +:+ "." +:+ pk)
                     (alias +:+ "." +:+ Relation.field relation))) ;;
          if type_is relationType m2o || subQuery then
            parent <-
              match relationType with
              | Some m2o => ret (nonnull (Relation.related_collection relation))
              | Some m2a =>
                  let pathScope := path_scope part in
                  if negb (truthy_str pathScope) then throw scope_required
                  else ret (nonnull pathScope)
              | _ => ret (Relation.collection relation)
              end ;;
            match rest with
            | [] => ret tt
            | _ :: _ =>
                addJoin_followRelation subQuery rest parent (Some alias)
            end
          else ret tt
      end
  end.

Definition addJoin (subQuery : bool) (path : list string)
    (collection : string) : M unit :=
  addJoin_followRelation subQuery path collection None.

(** [addJoins(dbQuery, filter, collection)]; the builder is the current
    one. *)
Fixpoint addJoins (subQuery : bool) (filter : value) (collection : string)
    {struct filter} : M unit :=
  match filter with
  | VObj props =>
      forEach (fun '(key, value) =>
        if is_combinator key then
          match value with
          | VArr subFilters =>
              skip <- (if String.eqb key "_or"
                       then lift (some_empty subFilters) else ret false) ;;
              if skip then ret tt
              else forEach (fun subFilter =>
                              addJoins subQuery subFilter collection)
                     subFilters
          | _ => throw TypeError
          end
        else
          filterPath <- lift (getFilterPath key value) ;;
          when (1 <? List.length filterPath)%nat
            (addJoin subQuery filterPath collection)) props
  | other => props <- lift (entries other) ;; ret tt
  end.

(** *** The predicate compiler *)

(** [applyFilterToQuery(key, operator, compareValue, logical)]; the builder
    is the current one.  A [return] inside the function ends it: the
    remaining tests are the continuation of the test that does not return. *)
Definition applyFilterToQuery (key operator : string) (compareValue : value)
    (logical : logical) : M unit :=
  let parts := split "." key in
  let selectionRaw := Selection (getColumn (hd key parts) (nth_error parts 1)) in
  let op_is op := String.eqb operator op in
  when (op_is "_null" || (op_is "_nnull" && is_false compareValue))
    (call (WhereNull logical selectionRaw)) ;;
  when (op_is "_nnull" || (op_is "_null" && is_false compareValue))
    (call (WhereNotNull logical selectionRaw)) ;;
  when (op_is "_empty" || (op_is "_nempty" && is_false compareValue))
    (group <- deferred (call (Where And (Key key) "=" (Val (VStr EmptyString)))) ;;
     call (AndWhere logical group)) ;;
  when (op_is "_nempty" || (op_is "_empty" && is_false compareValue))
    (group <- deferred (call (Where And (Key key) "!=" (Val (VStr EmptyString)))) ;;
     call (AndWhere logical group)) ;;
  if is_undefined compareValue then ret tt
  else
    let compareValue := drop_undefined compareValue in
    let geometry :=
      when (op_is "_intersects")
        (call (WhereRaw logical (Geometry "intersects" key compareValue))) ;;
      when (op_is "_nintersects")
        (call (WhereRaw logical (Geometry "nintersects" key compareValue))) ;;
      when (op_is "_intersects_bbox")
        (call (WhereRaw logical (Geometry "intersects_bbox" key compareValue))) ;;
      when (op_is "_nintersects_bbox")
        (call (WhereRaw logical (Geometry "nintersects_bbox" key compareValue))) in
    let nbetween :=
      if op_is "_nbetween" then
        wrong <- lift (length_is_not_2 compareValue) ;;
        if wrong then ret tt
        else call (WhereNotBetween logical selectionRaw
                     (split_if_string compareValue)) ;;
             geometry
      else geometry in
    let between :=
      if op_is "_between" then
        wrong <- lift (length_is_not_2 compareValue) ;;
        if wrong then ret tt
        else call (WhereBetween logical selectionRaw
                     (split_if_string compareValue)) ;;
             nbetween
      else nbetween in
    when (op_is "_eq")
      (call (Where logical selectionRaw "=" (Val compareValue))) ;;
    when (op_is "_neq")
      (call (WhereNot logical selectionRaw None (Val compareValue))) ;;
    when (op_is "_contains")
      (call (Where logical selectionRaw "like" (Template "%" compareValue "%"))) ;;
    when (op_is "_ncontains")
      (call (WhereNot logical selectionRaw (Some "like")
               (Template "%" compareValue "%"))) ;;
    when (op_is "_starts_with")
      (call (Where logical (Key key) "like"
               (Template EmptyString compareValue "%"))) ;;
    when (op_is "_nstarts_with")
      (call (WhereNot logical (Key key) (Some "like")
               (Template EmptyString compareValue "%"))) ;;
    when (op_is "_ends_with")
      (call (Where logical (Key key) "like"
               (Template "%" compareValue EmptyString))) ;;
    when (op_is "_nends_with")
      (call (WhereNot logical (Key key) (Some "like")
               (Template "%" compareValue EmptyString))) ;;
    when (op_is "_gt")
      (call (Where logical selectionRaw ">" (Val compareValue))) ;;
    when (op_is "_gte")
      (call (Where logical selectionRaw ">=" (Val compareValue))) ;;
    when (op_is "_lt")
      (call (Where logical selectionRaw "<" (Val compareValue))) ;;
    when (op_is "_lte")
      (call (Where logical selectionRaw "<=" (Val compareValue))) ;;
    when (op_is "_in")
      (call (WhereIn logical selectionRaw (split_if_string compareValue))) ;;
    when (op_is "_nin")
      (call (WhereNotIn logical selectionRaw (split_if_string compareValue))) ;;
    between.

(** [followRelation] of [getWhereColumn]; [None] is [undefined]. *)
Fixpoint getWhereColumn_followRelation (pathParts : list string)
    (parentCollection : string) (parentAlias : option string)
    {struct pathParts} : M (option string) :=
  match pathParts with
  | [] => throw TypeError
  | part :: remainingParts =>
      let pathRoot := path_root part in
      match find_relation parentCollection pathRoot with
      | None => throw (not_relational parentCollection pathRoot)
      | Some relation =>
          let relationType :=
            getRelationType relation parentCollection pathRoot in
          aliases <- get_aliasMap ;;
          let alias := to_alias (get aliases (alias_path parentAlias pathParts)) in
          parent <-
            match relationType with
            | Some m2a =>
                let pathScope := path_scope part in
                if negb (truthy_str pathScope) then throw scope_required
                else ret (nonnull pathScope)
            | Some m2o => ret (nonnull (Relation.related_collection relation))
            | _ => ret (Relation.collection relation)
            end ;;
          match remainingParts with
          | [] => ret None
          | [column] => ret (Some (or_else alias parent +:+ "." +:+ column))
          | _ :: _ :: _ =>
              getWhereColumn_followRelation remainingParts parent alias
          end
      end
  end.

Definition getWhereColumn (path : list string) (collection : string)
  : M (option string) :=
  getWhereColumn_followRelation path collection None.

(** *** Search and aggregates *)

Definition type_in (types : list string) (f : Schema.FieldOverview) : bool :=
  existsb (String.eqb (Schema.type f)) types.

(** [applySearch(schema, dbQuery, searchQuery, collection)].  The function
    is asynchronous and its caller does not wait for it: an exception raised
    in its body rejects the promise and is not thrown to the caller. *)
Definition applySearch (searchQuery collection : string) : M unit :=
  match Schema.collections schema !! collection with
  | None => ret tt
  | Some overview =>
      group <- deferred
        (forEach (fun '(name, f) =>
           let column := collection +:+ "." +:+ name in
           if type_in ["text"; "string"] f then
             call (OrWhereRawLike column
                     ("%" +:+ toLowerCase searchQuery +:+ "%"))
           else if type_in ["bigInteger"; "integer"; "decimal"; "float"] f then
             match Number searchQuery with
             | Some number => call (OrWhereEq column (Val number))
             | None => ret tt
             end
           else if String.eqb (Schema.type f) "uuid" && validate searchQuery then
             call (OrWhereEq column (Val (VStr searchQuery)))
           else ret tt) (Schema.fields overview)) ;;
      call (AndWhere And group)
  end.

(** [applyAggregate(dbQuery, aggregate)] *)
Definition applyAggregate
    (aggregate : list (string * option (list string))) : M unit :=
  forEach (fun '(operation, fields) =>
    match fields with
    | None => ret tt
    | Some fields =>
        forEach (fun field =>
          let op_is op := String.eqb operation op in
          let named method := call (Aggregate method field (method +:+ "->" +:+ field)) in
          when (op_is "avg") (named "avg") ;;
          when (op_is "avgDistinct") (named "avgDistinct") ;;
          when (op_is "count")
            (if String.eqb field "*" then call (Aggregate "count" "*" "count")
             else named "count") ;;
          when (op_is "countDistinct") (named "countDistinct") ;;
          when (op_is "sum") (named "sum") ;;
          when (op_is "sumDistinct") (named "sumDistinct") ;;
          when (op_is "min") (named "min") ;;
          when (op_is "max") (named "max")) fields
    end) aggregate.

(** *** The orchestrator *)

(** The body of [applyQuery], with the call of [applyFilter] on
    [query.filter] given as [applyFilter_on_filter]. *)
Definition applyQuery_body (applyFilter_on_filter : M unit)
    (collection : string) (query : Query) : M unit :=
  match Query.sort query with
  | Some sorts =>
      call (OrderBy (map (fun sort =>
                            (getColumn collection (Some (Query.column sort)),
                             Query.order sort)) sorts))
  | None => ret tt
  end ;;
  match Query.limit query with
  | Some limit => call (Limit limit)
  | None => ret tt
  end ;;
  when (truthy_num (Query.offset query))
    (call (Offset (Finite (default 0 (Query.offset query))))) ;;
  when (truthy_num (Query.page query) && truthy_num (Query.limit query))
    (call (Offset (times (default 0 (Query.limit query))
                     (minus (default 0 (Query.page query)) 1)))) ;;
  when (truthy (Query.filter query)) applyFilter_on_filter ;;
  when (truthy_str (Query.search query))
    (applySearch (default EmptyString (Query.search query)) collection) ;;
  match Query.group query with
  | Some group => call (GroupBy (map applyFunctionToColumnName group))
  | None => ret tt
  end ;;
  match Query.aggregate query with
  | Some aggregate => applyAggregate aggregate
  | None => ret tt
  end.

(** [addWhereClauses(knex, dbQuery, filter, collection, logical)]; the
    builder is the current one.  The recursive [applyQuery] of the
    one-to-many case is written out as [applyQuery_body] around the two
    passes of [applyFilter] over the nested value, see
    [addWhereClauses_o2m_applyQuery]. *)
Fixpoint addWhereClauses (subQuery : bool) (filter : value)
    (collection : string) (logical : logical) {struct filter} : M unit :=
  match filter with
  | VObj props =>
      forEach (fun '(key, value) =>
        if is_combinator key then
          skip <- (if String.eqb key "_or" then
                     match value with
                     | VArr subFilters => lift (some_empty subFilters)
                     | _ => throw TypeError
                     end
                   else ret false) ;;
          if skip then ret tt
          else
            group <- deferred
              match value with
              | VArr subFilters =>
                  forEach (fun subFilter =>
                    addWhereClauses subQuery subFilter collection
                      (if String.eqb key "_and" then And else Or)) subFilters
              | _ => throw TypeError
              end ;;
            call (WhereWrapped logical group)
        else
          filterPath <- lift (getFilterPath key value) ;;
          let pathRoot := path_root (hd key filterPath) in
          let relation := find_relation collection pathRoot in
          operation <- lift (getOperation key value) ;;
          let filterOperator := fst operation in
          let filterValue := snd operation in
          let relationType :=
            match relation with
            | Some relation => getRelationType relation collection pathRoot
            | None => None
            end in
          match relationType, relation with
          | Some o2m, Some relation =>
              if subQuery then ret tt
              else
                pk <- primary_of (nonnull (Relation.related_collection relation)) ;;
                let pkField := collection +:+ "." +:+ pk in
                subselect <- deferred
                  (let field := Relation.field relation in
                   let collection := Relation.collection relation in
                   let column := collection +:+ "." +:+ field in
                   call (Select field column) ;;
                   call (From collection) ;;
                   applyQuery_body
                     (with_aliasMap
                        (addJoins true value collection ;;
                         addWhereClauses true value collection And))
                     collection (filter_only value)) ;;
                call (WhereInSubquery logical pkField subselect)
          | _, _ =>
              if (1 <? List.length filterPath)%nat then
                columnName <- getWhereColumn filterPath collection ;;
                match columnName with
                | None => ret tt
                | Some columnName =>
                    applyFilterToQuery columnName filterOperator filterValue
                      logical
                end
              else
                applyFilterToQuery (collection +:+ "." +:+ hd key filterPath)
                  filterOperator filterValue logical
          end) props
  | other => props <- lift (entries other) ;; ret tt
  end.

(** [applyFilter(knex, schema, rootQuery, rootFilter, collection, subQuery)] *)
Definition applyFilter (rootFilter : value) (collection : string)
    (subQuery : bool) : M unit :=
  with_aliasMap
    (addJoins subQuery rootFilter collection ;;
     addWhereClauses subQuery rootFilter collection And).

(** [applyQuery(knex, collection, dbQuery, query, schema, subQuery)] *)
Definition applyQuery (collection : string) (query : Query)
    (subQuery : bool) : M unit :=
  applyQuery_body (applyFilter (Query.filter query) collection subQuery)
    collection query.

(** The calls a compilation makes on a fresh builder, or the exception it
    raises to its caller. *)
Definition compile (m : M unit) : exception + list clause :=
  match m (mkState [] (AObj ∅) 0%nat) with
  | (inr _, s) => inr (dbQuery s)
  | (inl e, _) => inl e
  end.

(** ** Reasoning about compilations *)

(** [obeys P E m]: whatever the state, [m] only appends calls satisfying [P]
    to the current builder, and only raises exceptions satisfying [E]. *)
Definition obeys {A} (P : clause -> Prop) (E : exception -> Prop) (m : M A)
  : Prop :=
  forall s,
    (exists l, dbQuery (snd (m s)) = (dbQuery s ++ l)%list /\ Forall P l)
    /\ (forall e, fst (m s) = inl e -> E e).


Definition is_offset (c : clause) : Prop :=
  match c with Offset _ => True | _ => False end.

Definition is_invalid_query (e : exception) : Prop :=
  match e with InvalidQueryException _ => True | _ => False end.

Definition is_left_join (c : clause) : bool :=
  match c with LeftJoin _ _ _ _ => true | _ => false end.

(** *** The joins a many-to-one chain asks for

    [m2o_chain c hops t]: from collection [c], every segment of [hops]
    resolves to a many-to-one relation whose related collection is in the
    schema, and the chain ends in collection [t]. *)
Inductive m2o_chain : string -> list string -> string -> Prop :=
| chain_end c : m2o_chain c [] c
| chain_hop c part hops relation target overview t :
    find_relation c (path_root part) = Some relation ->
    getRelationType relation c (path_root part) = Some m2o ->
    Relation.related_collection relation = Some target ->
    Schema.collections schema !! target = Some overview ->
    m2o_chain target hops t ->
    m2o_chain c (part :: hops) t.

(** Following the words of the spec: for each many-to-one hop,
    [LEFT JOIN related_collection AS alias ON parent.field =
    alias.primary_key], with the k-th alias drawn for the k-th hop and the
    alias of a hop as the parent of the next. *)
Fixpoint chain_joins (hops : list string) (parentCollection parentName : string)
    (k : nat) : list clause :=
  match hops with
  | [] => []
  | part :: rest =>
      match find_relation parentCollection (path_root part) with
      | Some relation =>
          let target := nonnull (Relation.related_collection relation) in
          let alias := generateAlias k in
          match Schema.collections schema !! target with
          | Some overview =>
              LeftJoin alias target
                (parentName +:+ "." +:+ Relation.field relation)
                (alias +:+ "." +:+ Schema.primary overview)
              :: chain_joins rest target alias (S k)
          | None => []
          end
      | None => []
      end
  end.

(** The alias map after the planner has walked [hops] followed by [rest]. *)
Fixpoint chain_aliases (hops rest : list string) (parentAlias : option string)
    (k : nat) (aliases : amap) : amap :=
  match hops with
  | [] => aliases
  | part :: hops' =>
      chain_aliases hops' rest (Some (generateAlias k)) (S k)
        (set aliases (alias_path parentAlias (hops ++ rest)%list) (generateAlias k))
  end.

(** The aliases drawn from draw [k] on, [n] of them, are usable and fresh
    with respect to [first]: none is empty, none equals [first], no two are
    equal. *)
Definition fresh_aliases (first : string) (k n : nat) : Prop :=
  NoDup (first :: map generateAlias (seq k n))
  /\ Forall (fun a => a <> EmptyString) (map generateAlias (seq k n)).

(** The parent alias of the hop that comes after the hops [before], in a
    walk whose first alias is draw [k] and that starts under
    [parentAlias]. *)
Definition previous_alias (parentAlias : option string) (k : nat)
    (before : list string) : option string :=
  match before with
  | [] => parentAlias
  | _ :: _ => Some (generateAlias (k + List.length before - 1))
  end.

(** The alias of the last hop of a chain of [n] hops whose first alias is
    draw [k]. *)
Definition terminal_alias (k n : nat) : string := generateAlias (k + n - 1).








(** The state the join planner leaves after a many-to-one chain [hops]
    followed by [rest]. *)
Definition planned (hops rest : list string) (collection : string)
    (s : state) : state :=
  mkState (dbQuery s ++ chain_joins hops collection collection (drawn s))
    (chain_aliases hops rest None (drawn s) (aliasMap s))
    (drawn s + List.length hops).


Definition not_offset (c : clause) : Prop := ~ is_offset c.

Definition anything (e : exception) : Prop := True.

(** The filter value [{ s1: { s2: ... { operator: comparand } } }]. *)
Fixpoint nest (segments : list string) (operator : string)
    (comparand : value) : value :=
  match segments with
  | [] => VObj [(operator, comparand)]
  | segment :: rest => VObj [(segment, nest rest operator comparand)]
  end.

(** The operators [applyFilterToQuery] tests for. *)
Definition operators : list string :=
  ["_null"; "_nnull"; "_empty"; "_nempty"; "_eq"; "_neq"; "_contains";
   "_ncontains"; "_starts_with"; "_nstarts_with"; "_ends_with";
   "_nends_with"; "_gt"; "_gte"; "_lt"; "_lte"; "_in"; "_nin"; "_between";
   "_nbetween"; "_intersects"; "_nintersects"; "_intersects_bbox";
   "_nintersects_bbox"].

(** The operations [applyAggregate] tests for, and the call one field of one
    operation amounts to. *)
Definition aggregate_operations : list string :=
  ["avg"; "avgDistinct"; "count"; "countDistinct"; "sum"; "sumDistinct";
   "min"; "max"].

Definition aggregate_call (operation field : string) : list clause :=
  if existsb (String.eqb operation) aggregate_operations then
    [Aggregate operation field
       (if String.eqb operation "count" && String.eqb field "*" then "count"
        else operation +:+ "->" +:+ field)]
  else [].

Definition aggregate_calls
    (aggregate : list (string * option (list string))) : list clause :=
  flat_map (fun entry =>
              match snd entry with
              | Some fields => flat_map (aggregate_call (fst entry)) fields
              | None => []
              end) aggregate.

(** Kinds of builder calls and of exceptions. *)
Definition is_join (c : clause) : Prop :=
  match c with
  | LeftJoin _ _ _ _ | LeftJoinWith _ _ _ => True
  | _ => False
  end.

Definition is_where (c : clause) : Prop :=
  match c with
  | Where _ _ _ _ | WhereNot _ _ _ _ | WhereNull _ _ | WhereNotNull _ _
  | WhereIn _ _ _ | WhereNotIn _ _ _ | WhereBetween _ _ _
  | WhereNotBetween _ _ _ | WhereRaw _ _ | WhereWrapped _ _ | AndWhere _ _
  | WhereInSubquery _ _ _ => True
  | _ => False
  end.

Definition is_or_where (c : clause) : Prop :=
  match c with
  | OrWhereRawLike _ _ | OrWhereEq _ _ => True
  | _ => False
  end.

Definition planner_exception (e : exception) : Prop :=
  e = TypeError \/ e = NotARecord \/ e = scope_required.

Definition compiler_exception (e : exception) : Prop :=
  planner_exception e
  \/ exists parentCollection pathRoot,
       e = not_relational parentCollection pathRoot.

Definition nothing (e : exception) : Prop := False.

(** [s] holds the character [c]. *)
Fixpoint has_char (c : ascii) (s : string) : bool :=
  match s with
  | EmptyString => false
  | String c' s' => Ascii.eqb c' c || has_char c s'
  end.

(** [c] registers no subselect, at any depth of grouping. *)
Fixpoint subselect_free (c : clause) : bool :=
  match c with
  | WhereInSubquery _ _ _ => false
  | WhereWrapped _ (inr calls) | AndWhere _ (inr calls) =>
      forallb subselect_free calls
  | _ => true
  end.

(** Every subselect that [c] registers, at any depth of grouping, is itself
    free of subselects. *)
Fixpoint subselects_flat (c : clause) : bool :=
  match c with
  | WhereInSubquery _ _ (inr calls) => forallb subselect_free calls
  | WhereWrapped _ (inr calls) | AndWhere _ (inr calls) =>
      forallb subselects_flat calls
  | _ => true
  end.

Definition is_subselect_free (c : clause) : Prop := subselect_free c = true.

Definition has_flat_subselects (c : clause) : Prop :=
  subselects_flat c = true.

(** [m] makes its calls and returns: it raises no exception. *)
Definition never_raises {A} (m : M A) : Prop :=
  obeys (fun _ => True) nothing m.

(** ** Properties *)

#[local] Arguments find_relation : simpl never.
#[local] Arguments path_root : simpl never.
#[local] Arguments path_scope : simpl never.
#[local] Arguments getRelationType : simpl never.
#[local] Arguments primary_of : simpl never.
#[local] Arguments applyFilterToQuery : simpl never.
#[local] Arguments getWhereColumn : simpl never.
#[local] Arguments addJoin : simpl never.
#[local] Arguments applySearch : simpl never.
#[local] Arguments applyAggregate : simpl never.
#[local] Arguments String.eqb : simpl never.

Lemma bind_ret {A B} (a : A) (k : A -> M B) : bind (ret a) k = k a.
Proof. reflexivity. Qed.

Lemma bind_throw {A B} (e : exception) (k : A -> M B) :
  bind (throw e) k = throw e.
Proof. reflexivity. Qed.

Lemma bind_bind {A B C} (m : M A) (f : A -> M B) (g : B -> M C) s :
  bind (bind m f) g s = bind m (fun x => bind (f x) g) s.
Proof. unfold bind. by destruct (m s) as [[e|a] s']. Qed.

Ltac mred :=
  repeat (rewrite ?bind_bind, ?bind_ret, ?bind_throw;
          cbn [lift hd fst snd nonnull default]; cbv beta).

Lemma getFilterPath_head key value path :
  getFilterPath key value = inr path -> exists rest, path = key :: rest.
Proof.
  destruct value as [| | | | | |[|[k v] props]]; simpl; intros H;
    try discriminate; try (inversion H; eauto; fail).
  destruct (startsWith_underscore k).
  - inversion H. eauto.
  - destruct (getFilterPath k v); inversion H. eauto.
Qed.

Lemma related_is_eq relation c :
  related_is relation c = true -> Relation.related_collection relation = Some c.
Proof.
  unfold related_is. destruct (Relation.related_collection relation); [|discriminate].
  intros H. apply String.eqb_eq in H. congruence.
Qed.

Lemma o2m_related relation c f :
  getRelationType relation c f = Some o2m ->
  Relation.related_collection relation = Some c.
Proof.
  unfold getRelationType.
  destruct (_ && _).
  - destruct (Relation.related_collection relation); discriminate.
  - destruct (related_is relation c) eqn:Hr; simpl; [|discriminate].
    intros _. by apply related_is_eq.
Qed.

Lemma some_empty_true (subFilters : list value) :
  Forall (fun v => exists props, v = VObj props) subFilters ->
  In (VObj []) subFilters ->
  some_empty subFilters = inr true.
Proof.
  induction 1 as [|v l [props ->] _ IH]; intros Hin.
  - destruct Hin.
  - destruct Hin as [Heq | Hin].
    + inversion Heq; subst. reflexivity.
    + simpl. destruct props; [reflexivity | auto].
Qed.

(** C4. An [_or] whose list of sub-filter objects contains [{}] is skipped
    as a whole by the join planner and by the predicate compiler: the
    compilation goes on with the next key as if the [_or] were absent, and a
    filter made of that [_or] alone leaves the builder untouched. *)
Theorem or_with_empty_branch_skipped (subQuery : bool)
    (subFilters : list value) (rest : list (string * value))
    (collection : string) (logical : logical) (s : state) :
  Forall (fun v => exists props, v = VObj props) subFilters ->
  In (VObj []) subFilters ->
  addJoins subQuery (VObj (("_or", VArr subFilters) :: rest)) collection s
  = addJoins subQuery (VObj rest) collection s
  /\ addWhereClauses subQuery (VObj (("_or", VArr subFilters) :: rest))
       collection logical s
     = addWhereClauses subQuery (VObj rest) collection logical s
  /\ applyFilter (VObj [("_or", VArr subFilters)]) collection subQuery s
     = (inr tt, s).
Proof.
  intros Hall Hin. pose proof (some_empty_true _ Hall Hin) as H.
  repeat split.
  - simpl. unfold bind at 1. unfold bind at 1. simpl. by rewrite H.
  - simpl. unfold bind at 1. unfold bind at 1. simpl. by rewrite H.
  - unfold applyFilter, with_aliasMap. simpl. unfold bind. simpl.
    rewrite H. simpl. by destruct s.
Qed.

(** C1. At the top level and outside subquery mode, a key that resolves to
    a one-to-many relation compiles to one call
    [whereIn(collection.primary, subselect)], whose subselect selects
    [relation.field] from [relation.collection] and is then filled by
    [applyQuery] in subquery mode on the nested value; the join planner adds
    no call to the builder for that key. *)
Theorem o2m_leaf_decorrelated (key : string) (value : value)
    (rest : list (string * Js.value)) (collection : string)
    (logical : logical) (relation : Relation) (path : list string)
    (operation : string * Js.value) (overview : Schema.CollectionOverview)
    (s : state) :
  is_combinator key = false ->
  getFilterPath key value = inr path ->
  getOperation key value = inr operation ->
  find_relation collection (path_root key) = Some relation ->
  getRelationType relation collection (path_root key) = Some o2m ->
  Schema.collections schema !! collection = Some overview ->
  addWhereClauses false (VObj ((key, value) :: rest)) collection logical s
  = (subselect <- deferred
       (call (Select (Relation.field relation)
                (Relation.collection relation +:+ "." +:+ Relation.field relation)) ;;
        call (From (Relation.collection relation)) ;;
        applyQuery (Relation.collection relation) (filter_only value) true) ;;
     call (WhereInSubquery logical
             (collection +:+ "." +:+ Schema.primary overview) subselect) ;;
     addWhereClauses false (VObj rest) collection logical) s
  /\ exists s',
       dbQuery s' = dbQuery s
       /\ addJoins false (VObj ((key, value) :: rest)) collection s
          = addJoins false (VObj rest) collection s'.
Proof.
  intros Hkey Hpath Hop Hfind Htype Hpk.
  destruct (getFilterPath_head _ _ _ Hpath) as [parts ->].
  pose proof (o2m_related _ _ _ Htype) as Hrel.
  split.
  - cbn [addWhereClauses forEach]. rewrite Hkey, Hpath, Hop. mred.
    rewrite Hfind, Htype, Hrel.
    unfold primary_of; mred; rewrite Hpk. mred.
    reflexivity.
  - cbn [addJoins forEach]. rewrite Hkey, Hpath. mred. unfold when.
    destruct parts as [|p parts]; cbn [List.length Nat.ltb Nat.leb].
    + mred. eauto.
    + unfold addJoin. cbn [addJoin_followRelation].
      rewrite Hfind, Htype.
      eexists. split; [|reflexivity]. reflexivity.
Qed.

(** *** What a compilation may append and raise *)

Lemma obeys_weaken {A} (P P' : clause -> Prop) (E E' : exception -> Prop)
    (m : M A) :
  (forall c, P c -> P' c) -> (forall e, E e -> E' e) ->
  obeys P E m -> obeys P' E' m.
Proof.
  intros HP HE Hm s. destruct (Hm s) as [(l & Hl & HF) He]. split; [|auto].
  exists l. split; [done|]. eapply Forall_impl; eauto.
Qed.

Lemma obeys_ret {A} P E (a : A) : obeys P E (ret a).
Proof. intros s. split; [exists []; by rewrite app_nil_r | discriminate]. Qed.

Lemma obeys_throw {A} P (E : exception -> Prop) e :
  E e -> obeys (A := A) P E (throw e).
Proof.
  intros He s. split; [exists []; by rewrite app_nil_r |].
  simpl. by intros e' [= <-].
Qed.

Lemma obeys_lift {A} P (E : exception -> Prop) (r : exception + A) :
  (forall e, r = inl e -> E e) -> obeys P E (lift r).
Proof.
  destruct r; simpl; intros H; [apply obeys_throw; auto | apply obeys_ret].
Qed.

Lemma obeys_bind {A B} P E (m : M A) (k : A -> M B) :
  obeys P E m -> (forall a, obeys P E (k a)) -> obeys P E (bind m k).
Proof.
  intros Hm Hk s. unfold bind.
  destruct (Hm s) as [(l & Hl & HF) He].
  destruct (m s) as [[e|a] s1]; simpl in *.
  - split; [eauto | intros e0 [= <-]; by apply He].
  - destruct (Hk a s1) as [(l2 & Hl2 & HF2) He2]. split; [|done].
    exists (l ++ l2)%list. rewrite Hl2, Hl, <- app_assoc. split; [done|].
    by apply Forall_app.
Qed.

Lemma obeys_call (P : clause -> Prop) E c : P c -> obeys P E (call c).
Proof. intros Hc s. split; [exists [c]; auto | discriminate]. Qed.

Lemma obeys_when P E b m : obeys P E m -> obeys P E (when b m).
Proof. destruct b; simpl; [done | intros _; apply obeys_ret]. Qed.

Lemma obeys_deferred P E body : obeys P E (deferred body).
Proof.
  intros s. unfold deferred.
  destruct (body _) as [[e|a] s1]; simpl;
    (split; [exists []; by rewrite app_nil_r | discriminate]).
Qed.

Lemma obeys_with_aliasMap P E body :
  obeys P E body -> obeys P E (with_aliasMap body).
Proof.
  intros Hb s. unfold with_aliasMap.
  destruct (Hb (mkState (dbQuery s) (AObj ∅) (drawn s))) as [Hl He].
  by destruct (body _) as [r s1].
Qed.

Lemma obeys_get_aliasMap P E : obeys P E get_aliasMap.
Proof. intros s. split; [exists []; by rewrite app_nil_r | discriminate]. Qed.

Lemma obeys_set_aliasMap P E path alias : obeys P E (set_aliasMap path alias).
Proof. intros s. split; [exists []; simpl; by rewrite app_nil_r | discriminate]. Qed.

Lemma obeys_draw_alias P E : obeys P E draw_alias.
Proof. intros s. split; [exists []; simpl; by rewrite app_nil_r | discriminate]. Qed.

Lemma obeys_primary_of P (E : exception -> Prop) name :
  E TypeError -> obeys P E (primary_of name).
Proof.
  intros He. unfold primary_of.
  destruct (_ !! _); [apply obeys_ret | by apply obeys_throw].
Qed.

Lemma obeys_forEach {A} P E (f : A -> M unit) (items : list A) :
  Forall (fun x => obeys P E (f x)) items -> obeys P E (forEach f items).
Proof.
  induction 1; simpl; [apply obeys_ret | apply obeys_bind; auto].
Qed.

Lemma length_is_not_2_error v e : length_is_not_2 v = inl e -> e = TypeError.
Proof.
  destruct v; simpl; try congruence.
  destruct (List.find _ _) as [[? []]|]; try congruence.
  destruct n; try congruence. repeat (destruct p; try congruence).
Qed.

Ltac obeys_step :=
  first
    [ apply obeys_ret
    | apply obeys_deferred
    | apply obeys_when
    | apply obeys_get_aliasMap
    | apply obeys_set_aliasMap
    | apply obeys_draw_alias
    | apply obeys_call; unfold not_offset; cbn; tauto
    | apply obeys_primary_of; unfold anything; cbn; tauto
    | apply obeys_throw; unfold anything; cbn; tauto
    | apply obeys_bind; [|intros ?]
    | match goal with
      | |- obeys _ _ (if ?b then _ else _) => destruct b
      | |- obeys _ _ (match ?x with _ => _ end) => destruct x
      end ].

Lemma applyFilterToQuery_obeys key operator compareValue logical :
  obeys not_offset (fun e => e = TypeError)
    (applyFilterToQuery key operator compareValue logical).
Proof.
  unfold applyFilterToQuery. cbv zeta.
  repeat first
    [ apply obeys_lift; apply length_is_not_2_error
    | obeys_step ].
Qed.

Lemma bind_ret_r (m : M unit) s : bind m (fun _ => ret tt) s = m s.
Proof. unfold bind, ret. by destruct (m s) as [[e|[]] s']. Qed.








(** C6 (the divergence). [_null] with the comparand [false] makes both
    calls, [whereNull] and then [whereNotNull], and so does [_nnull] with
    [false]; [_empty] and [_nempty] with [false] likewise register both the
    [= ''] and the [!= ''] group. *)
Theorem null_with_false_emits_both_tests (key : string) (logical : logical)
    (s : state) :
  let column := Selection (getColumn (hd key (split "." key))
                             (nth_error (split "." key) 1)) in
  let both_null :=
    (inr tt,
     mkState (dbQuery s ++ [WhereNull logical column;
                            WhereNotNull logical column])
       (aliasMap s) (drawn s)) in
  let both_empty :=
    (inr tt,
     mkState
       (dbQuery s
        ++ [AndWhere logical
              (inr [Where And (Key key) "=" (Val (VStr EmptyString))]);
            AndWhere logical
              (inr [Where And (Key key) "!=" (Val (VStr EmptyString))])])
       (aliasMap s) (drawn s)) in
  applyFilterToQuery key "_null" (VBool false) logical s = both_null
  /\ applyFilterToQuery key "_nnull" (VBool false) logical s = both_null
  /\ applyFilterToQuery key "_empty" (VBool false) logical s = both_empty
  /\ applyFilterToQuery key "_nempty" (VBool false) logical s = both_empty.
Proof.
  cbv zeta. repeat split;
    cbv -[split nth_error hd app getColumn]; by rewrite <- app_assoc.
Qed.

(** Without the comparand [false], [_null] makes the [whereNull] call alone
    and [_nnull] the [whereNotNull] call alone. *)
Lemma null_tests_without_false (key : string) (compareValue : value)
    (logical : logical) (s : state) :
  is_false compareValue = false ->
  let column := Selection (getColumn (hd key (split "." key))
                             (nth_error (split "." key) 1)) in
  applyFilterToQuery key "_null" compareValue logical s
  = (inr tt, mkState (dbQuery s ++ [WhereNull logical column])
               (aliasMap s) (drawn s))
  /\ applyFilterToQuery key "_nnull" compareValue logical s
     = (inr tt, mkState (dbQuery s ++ [WhereNotNull logical column])
                  (aliasMap s) (drawn s)).
Proof.
  intros Hfalse. cbv zeta.
  destruct compareValue as [| | [|] | | | |]; try discriminate;
    split; cbv -[split nth_error hd app getColumn]; reflexivity.
Qed.

(** C7 (the divergence). The comma-delimited string ["1,5"] is dropped by
    [_between] and [_nbetween], while the sequence of its two pieces makes
    the [whereBetween] and [whereNotBetween] calls; a string of two
    characters passes the length test and is bound as a single value. *)
Theorem between_comma_string_ignored (key : string) (logical : logical)
    (s : state) :
  let column := Selection (getColumn (hd key (split "." key))
                             (nth_error (split "." key) 1)) in
  let pieces := VArr [VStr "1"; VStr "5"] in
  applyFilterToQuery key "_between" (VStr "1,5") logical s = (inr tt, s)
  /\ applyFilterToQuery key "_nbetween" (VStr "1,5") logical s = (inr tt, s)
  /\ applyFilterToQuery key "_between" (VStr "ab") logical s
     = (inr tt, mkState (dbQuery s
                         ++ [WhereBetween logical column (VArr [VStr "ab"])])
                  (aliasMap s) (drawn s))
  /\ applyFilterToQuery key "_between" pieces logical s
     = (inr tt, mkState (dbQuery s ++ [WhereBetween logical column pieces])
                  (aliasMap s) (drawn s))
  /\ applyFilterToQuery key "_nbetween" pieces logical s
     = (inr tt, mkState (dbQuery s ++ [WhereNotBetween logical column pieces])
                  (aliasMap s) (drawn s)).
Proof.
  cbv zeta. repeat split;
    cbv -[split nth_error hd app getColumn]; by destruct s.
Qed.

(** For [_in] and [_nin], a comma-delimited string and the sequence of its
    pieces make the same call. *)
Lemma in_comma_string_same_as_pieces (key : string) (text : string)
    (logical : logical) (s : state) :
  applyFilterToQuery key "_in" (VStr text) logical s
  = applyFilterToQuery key "_in" (VArr (map VStr (split "," text))) logical s
  /\ applyFilterToQuery key "_nin" (VStr text) logical s
     = applyFilterToQuery key "_nin" (VArr (map VStr (split "," text)))
         logical s.
Proof.
  assert (Hf : forall l : list string,
    List.filter (fun x => negb (is_undefined x)) (map VStr l) = map VStr l).
  { induction l; [done|]. cbn. by f_equal. }
  unfold applyFilterToQuery. cbv zeta.
  cbn [is_false is_undefined drop_undefined split_if_string].
  by rewrite Hf.
Qed.

(** *** Pagination *)



Lemma value_nested_ind (P : value -> Prop) :
  P VUndefined -> P VNull -> (forall b, P (VBool b)) ->
  (forall n, P (VNum n)) -> (forall s, P (VStr s)) ->
  (forall items, Forall P items -> P (VArr items)) ->
  (forall props, Forall (fun entry => P (snd entry)) props -> P (VObj props)) ->
  forall v, P v.
Proof.
  intros Hu Hn Hb Hz Hs Ha Ho. fix IH 1.
  intros [| | b | n | s | items | props].
  - exact Hu.
  - exact Hn.
  - apply Hb.
  - apply Hz.
  - apply Hs.
  - apply Ha. induction items as [|x items IHitems]; constructor.
    + apply IH.
    + exact IHitems.
  - apply Ho. induction props as [|[k x] props IHprops]; constructor.
    + apply IH.
    + exact IHprops.
Qed.








Lemma bind_call {B} (c : clause) (k : unit -> M B) s :
  bind (call c) k s
  = k tt (mkState (dbQuery s ++ [c]) (aliasMap s) (drawn s)).
Proof. reflexivity. Qed.




(** *** The alias map *)

Lemma get_set_same (object : amap) (path : list string) (alias : string) :
  path <> [] -> get (set object path alias) path = Some (AStr alias).
Proof.
  revert object. induction path as [|key [|key' path] IH]; intros object Hne;
    [done| |].
  - cbn [set get props_of]. by rewrite lookup_insert_eq.
  - cbn [set]. cbn [get props_of]. rewrite lookup_insert_eq. by apply IH.
Qed.

Lemma get_set_other (object : amap) (key key' : string)
    (path path' : list string) (alias : string) :
  key <> key' ->
  get (set object (key :: path) alias) (key' :: path')
  = get object (key' :: path').
Proof.
  intros Hne. destruct path as [|key2 path];
    cbn [set get props_of]; by rewrite lookup_insert_ne.
Qed.

Lemma alias_path_fresh (alias : string) (pathParts : list string) :
  alias <> EmptyString ->
  alias_path (Some alias) pathParts = alias :: pathParts.
Proof.
  intros Hne. unfold alias_path, truthy_str.
  destruct (String.eqb_spec alias EmptyString); done.
Qed.

Lemma or_else_fresh (alias d : string) :
  alias <> EmptyString -> or_else (Some alias) d = alias.
Proof.
  intros Hne. unfold or_else.
  destruct (String.eqb_spec alias EmptyString); done.
Qed.

(** A lookup under a first key that is none of the aliases drawn for a
    chain, nor the first key the chain starts with, is not disturbed. *)
Lemma get_chain_aliases_other (hops rest : list string) :
  forall (parentAlias : option string) (k : nat) (aliases : amap)
         (key : string) (path : list string),
    hops ++ rest <> [] ->
    hd_error (alias_path parentAlias (hops ++ rest)) <> Some key ->
    key ∉ map generateAlias (seq k (List.length hops)) ->
    Forall (fun a => a <> EmptyString)
      (map generateAlias (seq k (List.length hops))) ->
    get (chain_aliases hops rest parentAlias k aliases) (key :: path)
    = get aliases (key :: path).
Proof.
  induction hops as [|part hops IH];
    intros parentAlias k aliases key path Hne Hhd Hnotin Hfresh; [done|].
  cbn [chain_aliases]. cbn [List.length seq map] in Hnotin, Hfresh.
  apply not_elem_of_cons in Hnotin as [Hk Hnotin].
  apply Forall_cons in Hfresh as [Hak Hfresh].
  destruct (alias_path parentAlias ((part :: hops) ++ rest)) as [|first more]
    eqn:Hpath.
  { unfold alias_path in Hpath.
    destruct parentAlias as [a|]; [destruct (truthy_str (Some a))|];
      discriminate. }
  destruct hops as [|part' hops].
  - cbn [chain_aliases]. apply get_set_other. cbn in Hhd. congruence.
  - rewrite IH; try done.
    + apply get_set_other. cbn in Hhd. congruence.
    + rewrite alias_path_fresh by done. cbn. congruence.
Qed.

(** Where the planner records the alias of each hop: under the alias of
    the hop before it (for the first hop, under the parent alias the walk
    starts with, if any) followed by the segments that remain, the hop's own
    included.  No later hop overwrites it. *)
Lemma chain_aliases_recorded (before : list string) :
  forall (part : string) (after rest : list string)
         (parentAlias : option string) (k : nat) (aliases : amap)
         (first : string),
    hd_error (alias_path parentAlias (before ++ part :: after ++ rest))
    = Some first ->
    fresh_aliases first k (List.length (before ++ part :: after)) ->
    get (chain_aliases (before ++ part :: after) rest parentAlias k aliases)
      (alias_path (previous_alias parentAlias k before)
         (part :: after ++ rest))
    = Some (AStr (generateAlias (k + List.length before))).
Proof.
  induction before as [|b before IH];
    intros part after rest parentAlias k aliases first Hfirst [Hnodup Hfresh].
  - cbn [app List.length previous_alias] in *. rewrite Nat.add_0_r.
    cbn [seq map] in Hnodup, Hfresh.
    apply Forall_cons in Hfresh as [Hak Hfresh].
    apply NoDup_cons in Hnodup as [Hfirst_notin Hnodup].
    cbn [chain_aliases app].
    destruct (alias_path parentAlias (part :: after ++ rest))
      as [|key path] eqn:Hpath; [done|].
    cbn [hd_error] in Hfirst. injection Hfirst as ->.
    destruct after as [|part' after].
    + cbn [chain_aliases]. by apply get_set_same.
    + rewrite get_chain_aliases_other.
      * by apply get_set_same.
      * done.
      * rewrite alias_path_fresh by done. cbn [app hd_error].
        intros [= <-]. apply Hfirst_notin. by left.
      * intros Hin. apply Hfirst_notin. by right.
      * done.
  - cbn [app List.length seq map] in Hnodup, Hfresh.
    apply Forall_cons in Hfresh as [Hak Hfresh].
    apply NoDup_cons in Hnodup as [_ Hnodup].
    cbn [app chain_aliases].
    specialize (IH part after rest (Some (generateAlias k)) (S k)
                  (set aliases
                     (alias_path parentAlias
                        (b :: before ++ part :: after ++ rest))
                     (generateAlias k))
                  (generateAlias k)).
    replace (b :: (before ++ part :: after) ++ rest)
      with (b :: before ++ part :: after ++ rest)
      by (by rewrite <- app_assoc).
    replace (previous_alias parentAlias k (b :: before))
      with (previous_alias (Some (generateAlias k)) (S k) before).
    2: { unfold previous_alias. destruct before as [|b' before].
         - cbn [List.length]. by rewrite Nat.add_1_r, Nat.sub_succ, Nat.sub_0_r.
         - f_equal. f_equal. cbn [List.length]. lia. }
    replace (k + List.length (b :: before))%nat
      with (S k + List.length before)%nat by (cbn [List.length]; lia).
    apply IH.
    + by rewrite alias_path_fresh.
    + done.
Qed.

(** *** Many-to-one chains *)

Lemma match_nonempty {A B} (l : list A) (x : B) (F : list A -> B) :
  l <> [] -> match l with [] => x | _ :: _ => F l end = F l.
Proof. by destruct l. Qed.

Lemma bind_get_aliasMap {B} (k : amap -> M B) s :
  bind get_aliasMap k s = k (aliasMap s) s.
Proof. reflexivity. Qed.

Lemma match_two {A B} (l : list A) (x : B) (one : A -> B) (F : list A -> B) :
  (2 <= List.length l)%nat ->
  match l with [] => x | [c] => one c | _ :: _ :: _ => F l end = F l.
Proof. destruct l as [|? [|? ?]]; cbn; intros; (lia || done). Qed.

Lemma bind_draw_alias {B} (k : string -> M B) s :
  bind draw_alias k s
  = k (generateAlias (drawn s))
      (mkState (dbQuery s) (aliasMap s) (S (drawn s))).
Proof. reflexivity. Qed.

Lemma bind_set_aliasMap {B} path alias (k : unit -> M B) s :
  bind (set_aliasMap path alias) k s
  = k tt (mkState (dbQuery s) (set (aliasMap s) path alias) (drawn s)).
Proof. reflexivity. Qed.

Lemma chain_joins_shape (hops : list string) (c t : string) :
  m2o_chain c hops t ->
  forall parentName k,
    List.length (chain_joins hops c parentName k) = List.length hops
    /\ forallb is_left_join (chain_joins hops c parentName k) = true.
Proof.
  induction 1 as [|c part hops relation target overview t Hf Ht Hr Hc _ IH];
    intros parentName k; [done|].
  cbn [chain_joins]. rewrite Hf, Hr. cbn [nonnull]. rewrite Hc.
  destruct (IH (generateAlias k) (S k)) as [Hlen Hall].
  cbn [List.length forallb is_left_join andb]. by rewrite Hlen.
Qed.


(** What the join planner does along a many-to-one chain that ends the path
    or is followed by a segment that is not a relation. *)
Lemma addJoin_followRelation_chain (subQuery : bool) (hops rest : list string)
    (c t : string) :
  m2o_chain c hops t ->
  forall (parentAlias : option string) (s : state),
    hops ++ rest <> [] ->
    (rest = [] \/ exists bad more,
        rest = bad :: more /\ find_relation t (path_root bad) = None) ->
    Forall (fun a => a <> EmptyString)
      (map generateAlias (seq (drawn s) (List.length hops))) ->
    addJoin_followRelation subQuery (hops ++ rest) c parentAlias s
    = (inr tt,
       mkState
         (dbQuery s
          ++ chain_joins hops c (or_else parentAlias c) (drawn s))
         (chain_aliases hops rest parentAlias (drawn s) (aliasMap s))
         (drawn s + List.length hops)).
Proof.
  induction 1 as [|c part hops relation target overview t Hf Ht Hr Hc Hchain IH];
    intros parentAlias s Hne Hrest Hfresh.
  - destruct Hrest as [->|(bad & more & -> & Hbad)]; [done|].
    cbn [app addJoin_followRelation]. cbv zeta. rewrite Hbad.
    cbn [chain_joins chain_aliases List.length ret].
    rewrite app_nil_r, Nat.add_0_r. by destruct s.
  - cbn [List.length seq map] in Hfresh.
    apply Forall_cons in Hfresh as [Hak Hfresh].
    cbn [app addJoin_followRelation]. cbv zeta. rewrite Hf, Ht, Hr.
    cbn [nonnull type_is]. unfold primary_of. rewrite Hc.
    cbn [when orb andb].
    rewrite bind_draw_alias, bind_set_aliasMap, !bind_ret, bind_call, ?bind_ret.
    cbn [dbQuery aliasMap drawn chain_joins chain_aliases].
    rewrite Hf, Hr. cbn [nonnull]. rewrite Hc.
    destruct (decide (hops ++ rest = [])) as [Hnil|Hnext].
    + rewrite Hnil. apply app_eq_nil in Hnil as [-> ->].
      cbn [chain_joins chain_aliases app List.length ret].
      by rewrite Nat.add_1_r.
    + rewrite (match_nonempty _ _
                 (fun l => addJoin_followRelation subQuery l target
                             (Some (generateAlias (drawn s))))) by done.
      rewrite (IH (Some (generateAlias (drawn s)))); cbn [drawn dbQuery aliasMap];
        [|done..].
      rewrite or_else_fresh by done.
      cbn [List.length]. rewrite <- app_assoc, Nat.add_succ_r. reflexivity.
Qed.


(** The column the predicate compiler resolves after the planner has walked
    a many-to-one chain: the alias of the last hop. *)
Lemma getWhereColumn_followRelation_chain (hops : list string) (column : string)
    (c t : string) :
  m2o_chain c hops t ->
  forall (parentAlias : option string) (k : nat) (aliases : amap) (s : state)
         (first : string),
    hops <> [] ->
    hd_error (alias_path parentAlias (hops ++ [column])) = Some first ->
    fresh_aliases first k (List.length hops) ->
    aliasMap s = chain_aliases hops [column] parentAlias k aliases ->
    getWhereColumn_followRelation (hops ++ [column]) c parentAlias s
    = (inr (Some (terminal_alias k (List.length hops) +:+ "." +:+ column)), s).
Proof.
  induction 1 as [|c part hops relation target overview t Hf Ht Hr Hc Hchain IH];
    intros parentAlias k aliases s first Hne Hfirst [Hnodup Hfresh] Hmap;
    [done|].
  cbn [List.length seq map] in Hnodup, Hfresh.
  apply Forall_cons in Hfresh as [Hak Hfresh].
  apply NoDup_cons in Hnodup as [Hfirst_notin Hnodup].
  apply NoDup_cons in Hnodup as [Hak_notin Hnodup].
  cbn [app getWhereColumn_followRelation]. cbv zeta. rewrite Hf, Ht, Hr.
  rewrite bind_get_aliasMap. cbn [nonnull]. rewrite bind_ret.
  assert (Hget :
    get (aliasMap s) (alias_path parentAlias (part :: hops ++ [column]))
    = Some (AStr (generateAlias k))).
  { rewrite Hmap. cbn [chain_aliases app]. cbn [app] in Hfirst.
    destruct (alias_path parentAlias (part :: hops ++ [column]))
      as [|key path] eqn:Hpath; [done|].
    cbn [hd_error] in Hfirst. injection Hfirst as ->.
    destruct hops as [|part' hops].
    - cbn [chain_aliases]. by apply get_set_same.
    - rewrite get_chain_aliases_other.
      + by apply get_set_same.
      + done.
      + rewrite alias_path_fresh by done. cbn [app hd_error].
        intros [= <-]. apply Hfirst_notin. by left.
      + intros Hin. apply Hfirst_notin. by right.
      + done. }
  rewrite Hget. cbn [to_alias].
  destruct hops as [|part' hops].
  - cbn [app]. rewrite or_else_fresh by done.
    unfold terminal_alias. cbn [List.length]. by rewrite Nat.add_sub.
  - rewrite (match_two _ _ _
               (fun l => getWhereColumn_followRelation l target
                           (Some (generateAlias k))))
      by (rewrite length_app; cbn [List.length]; lia).
    rewrite (IH (Some (generateAlias k)) (S k)
               (set aliases (alias_path parentAlias
                               (part :: (part' :: hops) ++ [column]))
                  (generateAlias k)) s (generateAlias k)).
    + unfold terminal_alias. cbn [List.length].
      by replace (S k + S (List.length hops) - 1)%nat
        with (k + S (S (List.length hops)) - 1)%nat by lia.
    + done.
    + by rewrite alias_path_fresh.
    + split; [by apply NoDup_cons | done].
    + by rewrite Hmap.
Qed.

Lemma m2o_chain_first (hops : list string) (c t key : string)
    (more : list string) :
  m2o_chain c hops t -> hops = key :: more ->
  exists relation,
    find_relation c (path_root key) = Some relation
    /\ getRelationType relation c (path_root key) = Some m2o.
Proof. intros H ->. inversion H; subst. eauto. Qed.

(** The two passes over a filter made of one leaf whose path is a
    many-to-one chain followed by a column. *)
Lemma m2o_chain_passes (subQuery : bool) (key : string) (value : value)
    (collection : string) (hops : list string) (column t : string)
    (operation : string * Js.value) (logical : logical) (s : state) :
  is_combinator key = false ->
  getFilterPath key value = inr (hops ++ [column]) ->
  getOperation key value = inr operation ->
  hops <> [] ->
  m2o_chain collection hops t ->
  find_relation t (path_root column) = None ->
  fresh_aliases key (drawn s) (List.length hops) ->
  addJoins subQuery (VObj [(key, value)]) collection s
  = (inr tt, planned hops [column] collection s)
  /\ addWhereClauses subQuery (VObj [(key, value)]) collection logical
       (planned hops [column] collection s)
     = applyFilterToQuery
         (terminal_alias (drawn s) (List.length hops) +:+ "." +:+ column)
         (fst operation) (snd operation) logical
         (planned hops [column] collection s).
Proof.
  intros Hkey Hpath Hop Hne Hchain Hcol Hfresh.
  destruct (getFilterPath_head _ _ _ Hpath) as [parts Hparts].
  destruct hops as [|first hops']; [done|].
  cbn [app] in Hparts. injection Hparts as -> Hparts.
  destruct (m2o_chain_first _ _ _ _ _ Hchain eq_refl) as (relation & Hf & Ht).
  assert (Hlong : (1 <? List.length ((key :: hops') ++ [column]))%nat = true).
  { rewrite length_app. cbn [List.length]. apply Nat.ltb_lt. lia. }
  split.
  - cbn [addJoins forEach]. rewrite Hkey, Hpath. mred.
    rewrite Hlong. cbn [when]. rewrite bind_ret_r. unfold addJoin.
    rewrite (addJoin_followRelation_chain subQuery _ [column] _ _ Hchain).
    + reflexivity.
    + done.
    + right. eauto.
    + apply Hfresh.
  - cbn [addWhereClauses forEach]. rewrite Hkey, Hpath, Hop. mred.
    rewrite bind_ret_r. cbn [app hd]. rewrite Hf, Ht.
    change (key :: hops' ++ [column]) with ((key :: hops') ++ [column]).
    rewrite Hlong. unfold getWhereColumn, bind.
    rewrite (getWhereColumn_followRelation_chain _ _ _ _ Hchain None
               (drawn s) (aliasMap s) _ key); done.
Qed.

(** C2 (amended). For a single leaf whose path is a chain of many-to-one
    hops followed by a column that is not itself a relation, and with fresh
    aliases, the join planner emits one LEFT JOIN per hop, each under an
    alias of its own, and the predicate is compiled on the column of the
    alias of the last hop.  The alias of a hop is recorded in the alias map
    under the alias of the hop before it followed by the segments that
    remain (for the first hop, under the whole path of the leaf), and read
    there it is the alias drawn for that hop.  Aliases are never shared
    between leaves. *)
Theorem m2o_chain_joins_and_terminal_alias (subQuery : bool) (key : string)
    (value : value) (collection : string) (hops : list string)
    (column t : string) (operation : string * Js.value) (logical : logical)
    (s : state) :
  is_combinator key = false ->
  getFilterPath key value = inr (hops ++ [column]) ->
  getOperation key value = inr operation ->
  hops <> [] ->
  m2o_chain collection hops t ->
  find_relation t (path_root column) = None ->
  fresh_aliases key (drawn s) (List.length hops) ->
  let joins := chain_joins hops collection collection (drawn s) in
  let terminal :=
    terminal_alias (drawn s) (List.length hops) +:+ "." +:+ column in
  List.length joins = List.length hops
  /\ forallb is_left_join joins = true
  /\ addJoins subQuery (VObj [(key, value)]) collection s
     = (inr tt, planned hops [column] collection s)
  /\ addWhereClauses subQuery (VObj [(key, value)]) collection logical
       (planned hops [column] collection s)
     = applyFilterToQuery terminal (fst operation) (snd operation) logical
         (planned hops [column] collection s)
  /\ applyFilter (VObj [(key, value)]) collection subQuery s
     = with_aliasMap
         (fun s0 =>
            applyFilterToQuery terminal (fst operation) (snd operation) And
              (planned hops [column] collection s0)) s
  /\ forall before part after,
       hops = before ++ part :: after ->
       to_alias
         (get (aliasMap (planned hops [column] collection s))
            (alias_path (previous_alias None (drawn s) before)
               (part :: after ++ [column])))
       = Some (generateAlias (drawn s + List.length before)).
Proof.
  intros Hkey Hpath Hop Hne Hchain Hcol Hfresh. cbv zeta.
  destruct (chain_joins_shape _ _ _ Hchain collection (drawn s)) as [Hlen Hall].
  destruct (m2o_chain_passes subQuery key value collection hops column t
              operation logical s) as [Hj Hw]; try done.
  split; [done|]. split; [done|]. split; [done|]. split; [done|].
  split.
  2: { intros before part after ->. unfold planned. cbn [aliasMap].
       destruct (getFilterPath_head _ _ _ Hpath) as [parts Hparts].
       rewrite <- app_assoc in Hparts. cbn [app] in Hparts.
       rewrite (chain_aliases_recorded before part after [column] None
                  (drawn s) (aliasMap s) key); [done | | done].
       unfold alias_path. by rewrite Hparts. }
  unfold applyFilter, with_aliasMap.
  set (s0 := mkState (dbQuery s) (AObj ∅) (drawn s)).
  destruct (m2o_chain_passes subQuery key value collection hops column t
              operation And s0) as [Hj0 Hw0]; try done.
  unfold bind at 1. by rewrite Hj0, Hw0.
Qed.



(** ** Further properties of the compiler *)

(** *** Paths and operators *)

(** X1. The path and the operation are read back from a nested leaf: for
    segments that do not start with an underscore and an operator that does
    and is no combinator, [getFilterPath] returns the key followed by the
    segments and [getOperation] returns the operator with its comparand. *)
Theorem nested_leaf_read_back (key : string) (segments : list string)
    (operator : string) (comparand : value) :
  startsWith_underscore key = false ->
  Forall (fun segment => startsWith_underscore segment = false) segments ->
  startsWith_underscore operator = true ->
  is_combinator operator = false ->
  getFilterPath key (nest segments operator comparand) = inr (key :: segments)
  /\ getOperation key (nest segments operator comparand)
     = inr (operator, comparand).
Proof.
  intros Hkey Hsegments Hop Hcomb. revert key Hkey.
  assert (Hleaf : getOperation operator comparand = inr (operator, comparand)).
  { destruct comparand as [| | | | | |[|[? ?] ?]]; cbn [getOperation];
      by rewrite Hop, Hcomb. }
  induction Hsegments as [|segment rest Hsegment _ IH]; intros key Hkey.
  - cbn [nest getFilterPath getOperation]. by rewrite Hop, Hkey, Hleaf.
  - destruct (IH segment Hsegment) as [Hpath Hoperation].
    cbn [nest getFilterPath getOperation].
    by rewrite Hsegment, Hpath, Hkey, Hoperation.
Qed.

(** X2. A path returned by [getFilterPath] starts with the key and holds no
    further segment that starts with an underscore; an operator returned by
    [getOperation] starts with an underscore and is neither [_and] nor
    [_or]. *)
Theorem path_and_operator_shape (value : value) :
  (forall key path,
     getFilterPath key value = inr path ->
     exists rest,
       path = key :: rest
       /\ Forall (fun segment => startsWith_underscore segment = false) rest)
  /\ (forall key operator comparand,
        getOperation key value = inr (operator, comparand) ->
        startsWith_underscore operator = true
        /\ is_combinator operator = false).
Proof.
  induction value as [| | b | n | s | items _ | props IH]
    using value_nested_ind; split; intros key;
    try (intros path [= <-]; eauto; fail);
    try discriminate.
  1-6: intros operator comparand; cbn [getOperation];
       destruct (startsWith_underscore key) eqn:Hkey;
       [destruct (is_combinator key) eqn:Hcomb|]; cbn [andb negb];
       intros [= <- <-]; done.
  - intros path. destruct props as [|[k v] props]; [discriminate|].
    cbn [getFilterPath]. apply Forall_cons in IH as [[IHpath _] _].
    destruct (startsWith_underscore k) eqn:Hk.
    + intros [= <-]. eauto.
    + destruct (getFilterPath k v) as [e|rest] eqn:Hrest; [discriminate|].
      intros [= <-]. destruct (IHpath k rest Hrest) as (more & -> & Hmore).
      eexists. split; [done|]. by constructor.
  - intros operator comparand. cbn [getOperation].
    destruct (startsWith_underscore key) eqn:Hkey;
      [destruct (is_combinator key) eqn:Hcomb|]; cbn [andb negb];
      try (intros [= <- <-]; done);
      (destruct props as [|[k v] props]; [discriminate|];
       apply Forall_cons in IH as [[_ IHop] _]; apply IHop).
Qed.

(** X3. Under a key that does not start with an underscore and is not
    compiled as a one-to-many subselect, only the first property of a nested
    filter object is compiled: the join planner and the predicate compiler do
    the same with and without the properties that follow it. *)
Theorem nested_siblings_ignored (subQuery : bool) (key k : string)
    (v : value) (siblings rest : list (string * Js.value))
    (collection : string) (logical : logical) (s : state) :
  is_combinator key = false ->
  startsWith_underscore key = false ->
  (subQuery = true
   \/ forall relation,
        find_relation collection (path_root key) = Some relation ->
        getRelationType relation collection (path_root key) <> Some o2m) ->
  addJoins subQuery (VObj ((key, VObj ((k, v) :: siblings)) :: rest))
    collection s
  = addJoins subQuery (VObj ((key, VObj [(k, v)]) :: rest)) collection s
  /\ addWhereClauses subQuery (VObj ((key, VObj ((k, v) :: siblings)) :: rest))
       collection logical s
     = addWhereClauses subQuery (VObj ((key, VObj [(k, v)]) :: rest))
         collection logical s.
Proof.
  intros Hkey Hstart Hnot.
  assert (Hp : getFilterPath key (VObj ((k, v) :: siblings))
               = getFilterPath key (VObj [(k, v)])) by reflexivity.
  assert (Ho : getOperation key (VObj ((k, v) :: siblings))
               = getOperation key (VObj [(k, v)])).
  { cbn [getOperation]. by rewrite Hstart. }
  split.
  - cbn [addJoins forEach]. by rewrite Hkey, Hp.
  - cbn [addWhereClauses forEach]. rewrite Hkey, Hp, Ho.
    destruct (getFilterPath key (VObj [(k, v)])) as [e|path] eqn:Hpath;
      [reflexivity|].
    destruct (getFilterPath_head _ _ _ Hpath) as [parts ->].
    destruct (getOperation key (VObj [(k, v)])) as [e|operation];
      [reflexivity|].
    mred.
    destruct (find_relation collection (path_root key)) as [relation|] eqn:Hf;
      [|reflexivity].
    destruct (getRelationType relation collection (path_root key))
      as [[| |]|] eqn:Ht; try reflexivity.
    destruct Hnot as [->|Hnot]; [reflexivity|].
    by destruct (Hnot relation).
Qed.

(** *** Keys and groups *)


(** X5. In subquery mode a one-to-many relation is joined and not filtered
    on: the join planner joins the relation's collection on the parent's
    primary key against the relation's field and goes on from that
    collection, and the predicate compiler passes over a key that resolves to
    a one-to-many relation without a call. *)
Theorem o2m_in_subquery_joined_not_filtered (part : string)
    (rest : list string) (parentCollection : string)
    (parentAlias : option string) (relation : Relation)
    (overview : Schema.CollectionOverview) (s : state) :
  find_relation parentCollection (path_root part) = Some relation ->
  getRelationType relation parentCollection (path_root part) = Some o2m ->
  Schema.collections schema !! parentCollection = Some overview ->
  let alias := generateAlias (drawn s) in
  let joined :=
    mkState
      (dbQuery s
       ++ [LeftJoin alias (Relation.collection relation)
             (or_else parentAlias parentCollection +:+ "."
              +:+ Schema.primary overview)
             (alias +:+ "." +:+ Relation.field relation)])
      (set (aliasMap s) (alias_path parentAlias (part :: rest)) alias)
      (S (drawn s)) in
  addJoin_followRelation true (part :: rest) parentCollection parentAlias s
  = match rest with
    | [] => (inr tt, joined)
    | _ :: _ =>
        addJoin_followRelation true rest (Relation.collection relation)
          (Some alias) joined
    end
  /\ forall value more logical path operation,
       is_combinator part = false ->
       getFilterPath part value = inr path ->
       getOperation part value = inr operation ->
       addWhereClauses true (VObj ((part, value) :: more)) parentCollection
         logical s
       = addWhereClauses true (VObj more) parentCollection logical s.
Proof.
  intros Hf Ht Hc. cbv zeta.
  pose proof (o2m_related _ _ _ Ht) as Hrel. split.
  - cbn [addJoin_followRelation]. cbv zeta. rewrite Hf, Ht, Hrel.
    cbn [type_is when orb andb nonnull]. unfold primary_of. rewrite Hc.
    rewrite bind_draw_alias, bind_set_aliasMap, !bind_ret, bind_call,
      ?bind_ret.
    by destruct rest.
  - intros value more logical path operation Hkey Hpath Hop.
    destruct (getFilterPath_head _ _ _ Hpath) as [parts ->].
    cbn [addWhereClauses forEach]. rewrite Hkey, Hpath, Hop. mred.
    by rewrite Hf, Ht.
Qed.

Lemma deferred_group_registered (body : M unit) (logical : logical)
    (s : state) :
  fst ((group <- deferred body ;; call (WhereWrapped logical group)) s)
  = inr tt
  /\ exists outcome,
       dbQuery (snd ((group <- deferred body ;;
                      call (WhereWrapped logical group)) s))
       = dbQuery s ++ [WhereWrapped logical outcome].
Proof.
  unfold bind, deferred.
  destruct (body _) as [[e|[]] s1]; cbn; eauto.
Qed.

(** X6. The predicate compiler never raises on an [_and] key, whatever its
    value, nor on an [_or] key whose value is a list without an empty
    element: it registers one where-group, and what the sub-filters raise
    stays in the deferred outcome of the group. *)
Theorem logical_group_deferred (subQuery : bool) (value : value)
    (subFilters : list Js.value) (collection : string) (logical : logical)
    (s : state) :
  (fst (addWhereClauses subQuery (VObj [("_and", value)]) collection
          logical s) = inr tt
   /\ exists outcome,
        dbQuery (snd (addWhereClauses subQuery (VObj [("_and", value)])
                        collection logical s))
        = dbQuery s ++ [WhereWrapped logical outcome])
  /\ (some_empty subFilters = inr false ->
      fst (addWhereClauses subQuery (VObj [("_or", VArr subFilters)])
             collection logical s) = inr tt
      /\ exists outcome,
           dbQuery (snd (addWhereClauses subQuery
                           (VObj [("_or", VArr subFilters)])
                           collection logical s))
           = dbQuery s ++ [WhereWrapped logical outcome]).
Proof.
  split.
  - cbn [addWhereClauses forEach].
    change (is_combinator "_and") with true.
    change (String.eqb "_and" "_or") with false. cbv iota.
    rewrite bind_ret_r, bind_ret. cbv iota.
    apply deferred_group_registered.
  - intros Hsome. cbn [addWhereClauses forEach].
    change (is_combinator "_or") with true.
    change (String.eqb "_or" "_or") with true. cbv iota.
    rewrite Hsome. cbn [lift]. rewrite bind_ret_r, bind_ret. cbv iota.
    apply deferred_group_registered.
Qed.

(** *** Operators *)

Lemma not_an_operator (operator : string) :
  existsb (String.eqb operator) operators = false ->
  Forall (fun known => String.eqb operator known = false) operators.
Proof.
  intros H. apply Forall_forall. intros known Hin.
  destruct (String.eqb operator known) eqn:Heq; [|done].
  rewrite <- H. symmetry. apply existsb_exists. exists known.
  split; [by apply list_elem_of_In|done].
Qed.

(** X7. An operator that is none of those [applyFilterToQuery] tests for is
    ignored: no call, no exception, whatever the comparand. *)
Theorem unknown_operator_ignored (key operator : string)
    (compareValue : value) (logical : logical) (s : state) :
  existsb (String.eqb operator) operators = false ->
  applyFilterToQuery key operator compareValue logical s = (inr tt, s).
Proof.
  intros H%not_an_operator. unfold operators in H.
  repeat (apply Forall_cons in H as [? H]).
  unfold applyFilterToQuery. cbv zeta.
  repeat match goal with
         | Heq : String.eqb operator _ = false |- _ => rewrite Heq; clear Heq
         end.
  cbn [orb andb when]. by destruct (is_undefined compareValue).
Qed.

(** X8. Between its calls on the builder, [applyFilterToQuery] raises in one
    case only: the operator is [_between] or [_nbetween] and the comparand is
    [null], and the exception is then the [TypeError] of reading [length] (an
    [undefined] comparand returns before the test, and every other value has
    a length or none). *)
Theorem between_null_only_failure (key operator : string)
    (compareValue : value) (logical : logical) (s : state) (e : exception) :
  fst (applyFilterToQuery key operator compareValue logical s) = inl e
  <-> e = TypeError /\ compareValue = VNull
      /\ (operator = "_between" \/ operator = "_nbetween").
Proof.
  split.
  - intros Hraise.
    destruct (applyFilterToQuery_obeys key operator compareValue logical s)
      as [_ He].
    split; [by apply He|].
    assert (Hlen : forall v e', is_undefined v = false -> v <> VNull ->
                   length_is_not_2 v <> inl e').
    { intros v e' Hu Hn. destruct v; cbn in *; try congruence.
      destruct (List.find _ _) as [[? []]|]; try congruence.
      destruct n; try congruence. repeat (destruct p; try congruence). }
    assert (Hdec : compareValue = VNull \/ compareValue <> VNull)
      by (destruct compareValue; (by left) || (by right)).
    destruct Hdec as [Hnull|Hnull].
    + split; [done|]. subst compareValue.
      destruct (String.eqb_spec operator "_between") as [|Hb]; [by left|].
      destruct (String.eqb_spec operator "_nbetween") as [|Hn]; [by right|].
      exfalso. revert Hraise.
      apply String.eqb_neq in Hb, Hn.
      enough (Hok : never_raises
                      (applyFilterToQuery key operator VNull logical))
        by (intros Hraise; by destruct (proj2 (Hok s) _ Hraise)).
      unfold applyFilterToQuery. cbv zeta. rewrite Hb, Hn.
      unfold never_raises. repeat obeys_step.
    + exfalso. revert Hraise.
      enough (Hok : never_raises
                      (applyFilterToQuery key operator compareValue logical))
        by (intros Hraise; by destruct (proj2 (Hok s) _ Hraise)).
      unfold applyFilterToQuery. cbv zeta.
      destruct (is_undefined compareValue) eqn:Hu.
      * unfold never_raises. repeat obeys_step.
      * assert (Hu' : is_undefined (drop_undefined compareValue) = false)
          by by destruct compareValue.
        assert (Hn' : drop_undefined compareValue <> VNull)
          by by destruct compareValue.
        destruct (length_is_not_2 (drop_undefined compareValue))
          as [e'|b] eqn:Hb; [by destruct (Hlen _ e' Hu' Hn')|].
        unfold never_raises. repeat obeys_step.
  - intros (-> & -> & [->| ->]); reflexivity.
Qed.

(** X9. With an array comparand, [_between] and [_nbetween] count the
    entries that are not [undefined]: the call is made, with those entries,
    when exactly two are left, and nothing is done otherwise. *)
Theorem between_counts_defined_entries (key : string) (items : list value)
    (logical : logical) (s : state) :
  let column := Selection (getColumn (hd key (split "." key))
                             (nth_error (split "." key) 1)) in
  let kept := List.filter (fun x => negb (is_undefined x)) items in
  applyFilterToQuery key "_between" (VArr items) logical s
  = (inr tt,
     if Nat.eqb (List.length kept) 2
     then mkState (dbQuery s ++ [WhereBetween logical column (VArr kept)])
            (aliasMap s) (drawn s)
     else s)
  /\ applyFilterToQuery key "_nbetween" (VArr items) logical s
     = (inr tt,
        if Nat.eqb (List.length kept) 2
        then mkState (dbQuery s ++ [WhereNotBetween logical column (VArr kept)])
               (aliasMap s) (drawn s)
        else s).
Proof.
  cbv zeta. split.
  all: unfold applyFilterToQuery; cbv zeta.
  all: cbn [is_false is_undefined drop_undefined length_is_not_2 lift
              split_if_string andb].
  all: destruct (Nat.eqb _ 2); cbn [negb]; reflexivity.
Qed.

(** *** Aggregates and search *)

Lemma aggregate_field_calls (operation field : string) (s : state) :
  let op_is op := String.eqb operation op in
  let named method :=
    call (Aggregate method field (method +:+ "->" +:+ field)) in
  (when (op_is "avg") (named "avg") ;;
   when (op_is "avgDistinct") (named "avgDistinct") ;;
   when (op_is "count")
     (if String.eqb field "*" then call (Aggregate "count" "*" "count")
      else named "count") ;;
   when (op_is "countDistinct") (named "countDistinct") ;;
   when (op_is "sum") (named "sum") ;;
   when (op_is "sumDistinct") (named "sumDistinct") ;;
   when (op_is "min") (named "min") ;;
   when (op_is "max") (named "max")) s
  = (inr tt,
     mkState (dbQuery s ++ aggregate_call operation field) (aliasMap s)
       (drawn s)).
Proof.
  cbv zeta. unfold aggregate_call, aggregate_operations. cbn [existsb].
  assert (Hstar : forall s0,
    (if String.eqb field "*" then call (Aggregate "count" "*" "count")
     else call (Aggregate "count" field ("count" +:+ "->" +:+ field))) s0
    = (inr tt,
       mkState
         (dbQuery s0
          ++ [Aggregate "count" field
                (if true && String.eqb field "*" then "count"
                 else "count" +:+ "->" +:+ field)])
         (aliasMap s0) (drawn s0))).
  { intros s0. cbn [andb].
    destruct (String.eqb_spec field "*") as [->|]; reflexivity. }
  destruct (String.eqb_spec operation "avg") as [->|H1]; [reflexivity|].
  destruct (String.eqb_spec operation "avgDistinct") as [->|H2];
    [reflexivity|].
  destruct (String.eqb_spec operation "count") as [->|H3].
  { cbn [when orb]. rewrite !bind_ret. unfold bind at 1. rewrite Hstar.
    reflexivity. }
  destruct (String.eqb_spec operation "countDistinct") as [->|H4];
    [reflexivity|].
  destruct (String.eqb_spec operation "sum") as [->|H5]; [reflexivity|].
  destruct (String.eqb_spec operation "sumDistinct") as [->|H6];
    [reflexivity|].
  destruct (String.eqb_spec operation "min") as [->|H7]; [reflexivity|].
  destruct (String.eqb_spec operation "max") as [->|H8]; [reflexivity|].
  cbn [when orb]. rewrite !bind_ret. unfold ret. rewrite app_nil_r.
  by destruct s.
Qed.

(** X10. [applyAggregate] never raises and appends, in order, exactly one
    aggregate call per field of every entry whose operation is one of the
    eight known ones, named [operation->field] (and [count] for the count of
    [*]); an entry with another operation or without a field list adds
    nothing.  Applying two aggregate maps put together is applying the first
    and then the second. *)
Theorem applyAggregate_calls
    (aggregate more : list (string * option (list string))) (s : state) :
  applyAggregate aggregate s
  = (inr tt,
     mkState (dbQuery s ++ aggregate_calls aggregate) (aliasMap s) (drawn s))
  /\ applyAggregate (aggregate ++ more) s
     = (applyAggregate aggregate ;; applyAggregate more) s.
Proof.
  enough (Hrun : forall aggregate s,
    applyAggregate aggregate s
    = (inr tt,
       mkState (dbQuery s ++ aggregate_calls aggregate) (aliasMap s)
         (drawn s))).
  { split; [apply Hrun|]. unfold bind. rewrite !Hrun.
    cbn [dbQuery aliasMap drawn].
    unfold aggregate_calls. by rewrite flat_map_app, app_assoc. }
  clear. intros aggregate s.
  revert s. unfold applyAggregate.
  induction aggregate as [|[operation fields] aggregate IH]; intros s.
  - cbn. rewrite app_nil_r. by destruct s.
  - cbn [forEach aggregate_calls flat_map fst snd].
    assert (Hfields : forall s0,
      match fields with
      | Some fields0 =>
          forEach (fun field =>
            let op_is op := String.eqb operation op in
            let named method :=
              call (Aggregate method field (method +:+ "->" +:+ field)) in
            when (op_is "avg") (named "avg") ;;
            when (op_is "avgDistinct") (named "avgDistinct") ;;
            when (op_is "count")
              (if String.eqb field "*"
               then call (Aggregate "count" "*" "count")
               else named "count") ;;
            when (op_is "countDistinct") (named "countDistinct") ;;
            when (op_is "sum") (named "sum") ;;
            when (op_is "sumDistinct") (named "sumDistinct") ;;
            when (op_is "min") (named "min") ;;
            when (op_is "max") (named "max")) fields0
      | None => ret tt
      end s0
      = (inr tt,
         mkState
           (dbQuery s0
            ++ match fields with
               | Some fields0 => flat_map (aggregate_call operation) fields0
               | None => []
               end) (aliasMap s0) (drawn s0))).
    { destruct fields as [fields|];
        [|intros s0; cbn; rewrite app_nil_r; by destruct s0].
      induction fields as [|field fields IHf]; intros s0.
      - cbn. rewrite app_nil_r. by destruct s0.
      - cbn [forEach flat_map]. unfold bind at 1.
        rewrite (aggregate_field_calls operation field s0).
        rewrite IHf. cbn [dbQuery aliasMap drawn]. by rewrite <- app_assoc. }
    unfold bind at 1. rewrite Hfields, IH. cbn [dbQuery aliasMap drawn].
    by rewrite <- app_assoc.
Qed.

Lemma forEach_at_most_one {A} (f : A -> M unit) (P : clause -> Prop)
    (items : list A) :
  (forall x s,
     exists added,
       f x s = (inr tt, mkState (dbQuery s ++ added) (aliasMap s) (drawn s))
       /\ (List.length added <= 1)%nat /\ Forall P added) ->
  forall s,
    exists added,
      forEach f items s
      = (inr tt, mkState (dbQuery s ++ added) (aliasMap s) (drawn s))
      /\ (List.length added <= List.length items)%nat /\ Forall P added.
Proof.
  intros Hf. induction items as [|x items IH]; intros s.
  - exists []. cbn. rewrite app_nil_r. by destruct s.
  - destruct (Hf x s) as (a1 & H1 & Hl1 & HP1).
    destruct (IH (mkState (dbQuery s ++ a1) (aliasMap s) (drawn s)))
      as (a2 & H2 & Hl2 & HP2).
    exists (a1 ++ a2). cbn [forEach]. unfold bind. rewrite H1, H2.
    cbn [dbQuery aliasMap drawn]. rewrite <- app_assoc.
    split; [done|]. split; [|by apply Forall_app].
    rewrite length_app. cbn [List.length]. lia.
Qed.

(** X11. [applySearch] never throws to its caller.  For a collection that
    is not in the schema the builder is left untouched (reading the fields
    fails before any call, and the failure rejects the promise nobody waits
    for); for a collection of the schema it appends one [andWhere] group,
    whatever the search string, whose callback succeeds and makes at most
    one call per field of the collection, each an [orWhere] or [orWhereRaw]
    call. *)
Theorem applySearch_one_group (searchQuery collection : string) (s : state) :
  match Schema.collections schema !! collection with
  | None => applySearch searchQuery collection s = (inr tt, s)
  | Some overview =>
      exists group,
        applySearch searchQuery collection s
        = (inr tt,
           mkState (dbQuery s ++ [AndWhere And (inr group)]) (aliasMap s)
             (drawn s))
        /\ (List.length group <= List.length (Schema.fields overview))%nat
        /\ Forall is_or_where group
  end.
Proof.
  unfold applySearch.
  destruct (Schema.collections schema !! collection) as [overview|];
    [|done].
  match goal with
  | |- context [deferred (forEach ?f ?l)] =>
      destruct (forEach_at_most_one f is_or_where l) with
        (s := mkState [] (aliasMap s) (drawn s)) as (group & Hg & Hl & HP)
  end.
  { intros [name f] s0.
    destruct (type_in ["text"; "string"] f).
    { eexists [_]. repeat split; [cbn; lia | by repeat constructor]. }
    destruct (type_in ["bigInteger"; "integer"; "decimal"; "float"] f).
    { destruct (Number searchQuery).
      - eexists [_]. repeat split; [cbn; lia | by repeat constructor].
      - exists []. cbn. rewrite app_nil_r.
        repeat split; [by destruct s0 | lia | done]. }
    destruct (_ && _).
    - eexists [_]. repeat split; [cbn; lia | by repeat constructor].
    - exists []. cbn. rewrite app_nil_r.
      repeat split; [by destruct s0 | lia | done]. }
  exists group. split; [|done].
  unfold bind, deferred. rewrite Hg. reflexivity.
Qed.

(** *** What the passes call and raise *)

Lemma getFilterPath_error (value : value) :
  forall key e, getFilterPath key value = inl e -> e = TypeError.
Proof.
  induction value as [| | b | n | s | items _ | props IH]
    using value_nested_ind; intros key e; cbn [getFilterPath];
    try congruence.
  destruct props as [|[k v] props]; [congruence|].
  apply Forall_cons in IH as [IH _]. cbn [snd] in IH.
  destruct (startsWith_underscore k); [congruence|].
  destruct (getFilterPath k v) as [e'|rest] eqn:Hrest; [|congruence].
  intros [= <-]. by apply (IH k).
Qed.

Lemma getOperation_error (value : value) :
  forall key e, getOperation key value = inl e -> e = TypeError.
Proof.
  induction value as [| | b | n | s | items _ | props IH]
    using value_nested_ind; intros key e; cbn [getOperation];
    destruct (startsWith_underscore key && negb (is_combinator key));
    try congruence.
  destruct props as [|[k v] props]; [congruence|].
  apply Forall_cons in IH as [IH _]. apply IH.
Qed.

Lemma some_empty_error (items : list value) (e : exception) :
  some_empty items = inl e -> e = TypeError.
Proof.
  induction items as [|x items IH]; cbn [some_empty]; [congruence|].
  destruct x; cbn [keys_length]; try congruence;
    match goal with
    | |- context [match ?n with O => _ | S _ => _ end] => destruct n
    end; congruence || exact IH.
Qed.

Lemma entries_error (v : value) (e : exception) :
  entries v = inl e -> e = TypeError \/ e = NotARecord.
Proof.
  destruct v as [| | | | s | [|] | ]; cbn [entries]; try (intros [= <-]; auto);
    try discriminate.
  destruct (String.eqb s EmptyString); [discriminate|]. intros [= <-]. auto.
Qed.

Ltac kinds_side :=
  solve
    [ exact I
    | unfold compiler_exception, planner_exception; eauto 7
    | intros ? ?%getFilterPath_error;
      unfold compiler_exception, planner_exception; auto
    | intros ? ?%getOperation_error;
      unfold compiler_exception, planner_exception; auto
    | intros ? ?%some_empty_error;
      unfold compiler_exception, planner_exception; auto
    | intros ? ?%entries_error;
      unfold compiler_exception, planner_exception; tauto
    | intros ? ?%length_is_not_2_error;
      unfold compiler_exception, planner_exception; auto ].

Ltac kinds_step :=
  first
    [ apply obeys_ret
    | apply obeys_deferred
    | apply obeys_when
    | apply obeys_get_aliasMap
    | apply obeys_set_aliasMap
    | apply obeys_draw_alias
    | apply obeys_call; kinds_side
    | apply obeys_primary_of; kinds_side
    | apply obeys_throw; kinds_side
    | apply obeys_lift; kinds_side
    | apply obeys_bind; [|intros ?]
    | match goal with
      | |- obeys _ _ (if ?b then _ else _) => destruct b
      | |- obeys _ _ (match ?x with _ => _ end) => destruct x
      end ].

Lemma applyFilterToQuery_kinds key operator compareValue logical :
  obeys is_where compiler_exception
    (applyFilterToQuery key operator compareValue logical).
Proof. unfold applyFilterToQuery. cbv zeta. repeat kinds_step. Qed.

Lemma addJoin_followRelation_kinds subQuery pathParts parentCollection
    parentAlias :
  obeys is_join planner_exception
    (addJoin_followRelation subQuery pathParts parentCollection parentAlias).
Proof.
  revert parentCollection parentAlias.
  induction pathParts as [|part rest IH]; intros parentCollection parentAlias;
    cbn [addJoin_followRelation]; cbv zeta.
  - apply obeys_throw. unfold planner_exception. auto.
  - repeat first [ apply IH | kinds_step ].
Qed.

Lemma getWhereColumn_followRelation_kinds pathParts parentCollection
    parentAlias :
  obeys is_where compiler_exception
    (getWhereColumn_followRelation pathParts parentCollection parentAlias).
Proof.
  revert parentCollection parentAlias.
  induction pathParts as [|part rest IH]; intros parentCollection parentAlias;
    cbn [getWhereColumn_followRelation]; cbv zeta.
  - apply obeys_throw. unfold compiler_exception, planner_exception. auto.
  - repeat first [ apply IH | kinds_step ].
Qed.

Lemma filter_passes_kinds (filter : value) :
  forall subQuery collection,
    obeys is_join planner_exception (addJoins subQuery filter collection)
    /\ forall logical,
         obeys is_where compiler_exception
           (addWhereClauses subQuery filter collection logical).
Proof.
  pose (P := fun filter => forall subQuery collection,
    obeys is_join planner_exception (addJoins subQuery filter collection)
    /\ forall logical,
         obeys is_where compiler_exception
           (addWhereClauses subQuery filter collection logical)).
  enough (H : P filter
              /\ forall items, filter = VArr items -> Forall P items)
    by apply H.
  induction filter as [| | b | n | s | items IH | props IH]
    using value_nested_ind;
    (split; [|try discriminate]).
  1-6: intros subQuery collection;
       (split; [|intros logical]); cbn [addJoins addWhereClauses];
       repeat kinds_step.
  - intros ? [= <-]. eapply Forall_impl; [exact IH|]. by intros ? [? _].
  - intros subQuery collection. split; [|intros logical].
    + cbn [addJoins]. apply obeys_forEach.
      eapply Forall_impl; [exact IH|]. intros [key value] [_ Hsub].
      cbn [snd] in Hsub.
      destruct (is_combinator key).
      * destruct value;
          try (apply obeys_throw; unfold planner_exception; auto; fail).
        repeat kinds_step.
        apply obeys_forEach. eapply Forall_impl; [exact (Hsub _ eq_refl)|].
        intros sub Hs. apply Hs.
      * repeat first [ apply addJoin_followRelation_kinds | kinds_step ].
    + cbn [addWhereClauses]. apply obeys_forEach.
      eapply Forall_impl; [exact IH|]. intros [key value] [Hval Hsub].
      cbn [snd] in Hval, Hsub.
      destruct (is_combinator key).
      * repeat kinds_step.
      * apply obeys_bind; [apply obeys_lift; kinds_side|]. intros filterPath.
        apply obeys_bind; [apply obeys_lift; kinds_side|]. intros operation.
        cbv zeta.
        assert (Hplain : obeys is_where compiler_exception
          (if (1 <? List.length filterPath)%nat then
             columnName <- getWhereColumn filterPath collection ;;
             match columnName with
             | None => ret tt
             | Some columnName =>
                 applyFilterToQuery columnName (fst operation) (snd operation)
                   logical
             end
           else
             applyFilterToQuery (collection +:+ "." +:+ hd key filterPath)
               (fst operation) (snd operation) logical)).
        { repeat first
            [ apply getWhereColumn_followRelation_kinds
            | apply applyFilterToQuery_kinds
            | kinds_step ]. }
        destruct (find_relation collection (path_root (hd key filterPath)))
          as [relation|]; [|exact Hplain].
        destruct (getRelationType relation collection _) as [[| |]|];
          try exact Hplain.
        repeat kinds_step.
Qed.

(** X12. The join planner only makes [leftJoin] calls, and the only
    [InvalidQueryException] it raises is the one asking for a collection
    scope: a segment that is no relation ends its walk without an
    exception (the other exceptions are the runtime's type errors,
    [NotARecord] standing for a filter that is a non-empty array or
    string). *)
Theorem join_planner_calls_and_exceptions (subQuery : bool) (filter : value)
    (collection : string) (s : state) :
  (exists joins,
     dbQuery (snd (addJoins subQuery filter collection s))
     = dbQuery s ++ joins
     /\ Forall is_join joins)
  /\ forall e,
       fst (addJoins subQuery filter collection s) = inl e ->
       planner_exception e.
Proof. apply filter_passes_kinds. Qed.

(** X13. Whatever the filter, and also when it raises, [applyFilter] keeps
    the calls already made on the builder and appends join calls followed
    by where calls; its alias map is its own (the map of an enclosing
    [applyFilter] is as it was afterwards); and between its calls on the
    builder the only exceptions its own statements raise are the two
    [InvalidQueryException]s (scope required, not a relational field) and
    the runtime's type errors ([NotARecord] standing for a filter that is a
    non-empty array or string).  What a builder method throws by itself, as
    Knex does for a [whereBetween] array that has not two entries, is not
    covered: a call is recorded, not run. *)
Theorem applyFilter_joins_then_wheres (rootFilter : value)
    (collection : string) (subQuery : bool) (s : state) :
  (exists joins wheres,
     dbQuery (snd (applyFilter rootFilter collection subQuery s))
     = dbQuery s ++ joins ++ wheres
     /\ Forall is_join joins /\ Forall is_where wheres)
  /\ aliasMap (snd (applyFilter rootFilter collection subQuery s))
     = aliasMap s
  /\ forall e,
       fst (applyFilter rootFilter collection subQuery s) = inl e ->
       compiler_exception e.
Proof.
  destruct (filter_passes_kinds rootFilter subQuery collection) as [Hj Hw].
  specialize (Hw And). unfold applyFilter, with_aliasMap, bind.
  set (s0 := mkState (dbQuery s) (AObj ∅) (drawn s)).
  destruct (Hj s0) as [(joins & Hjoins & HFj) Hej].
  destruct (addJoins subQuery rootFilter collection s0) as [[e|[]] s1];
    cbn [fst snd dbQuery aliasMap] in *.
  - repeat split.
    + exists joins, []. by rewrite app_nil_r.
    + intros e' [= <-]. left. by apply Hej.
  - destruct (Hw s1) as [(wheres & Hwheres & HFw) Hew].
    destruct (addWhereClauses subQuery rootFilter collection And s1)
      as [r s2]; cbn [fst snd dbQuery aliasMap] in *.
    repeat split.
    + exists joins, wheres. by rewrite Hwheres, Hjoins, app_assoc.
    + done.
Qed.

(** *** Many-to-any hops without a scope *)







(** *** Leaves with an undefined comparand *)






Lemma applySearch_never_raises searchQuery collection :
  never_raises (applySearch searchQuery collection).
Proof. unfold applySearch, never_raises. repeat obeys_step. Qed.

Lemma applyAggregate_never_raises aggregate :
  never_raises (applyAggregate aggregate).
Proof.
  unfold applyAggregate, never_raises. apply obeys_forEach, Forall_forall.
  intros [operation [fields|]] _; [|apply obeys_ret].
  apply obeys_forEach, Forall_forall. intros field _. cbv zeta.
  repeat obeys_step.
Qed.

(** X14. Only the filter can make [applyQuery] raise between its calls on
    the builder: with an absent (or otherwise falsy) filter it returns
    normally, whatever the sort, limit, offset, page, search, group and
    aggregate are, also for a collection the schema does not have. *)
Theorem applyQuery_without_filter_returns (collection : string)
    (query : Query) (subQuery : bool) (s : state) :
  truthy (Query.filter query) = false ->
  fst (applyQuery collection query subQuery s) = inr tt.
Proof.
  intros Hfilter.
  assert (Hok : never_raises (applyQuery collection query subQuery)).
  { unfold applyQuery, applyQuery_body, never_raises. rewrite Hfilter.
    repeat first
      [ apply applySearch_never_raises | apply applyAggregate_never_raises
      | obeys_step ]. }
  destruct (Hok s) as [_ He].
  destruct (applyQuery collection query subQuery s) as [[e|[]] s1];
    [by destruct (He e)|done].
Qed.

(** *** Path segments *)

Lemma split_without_separator (c : ascii) (s : string) :
  has_char c s = false -> split c s = [s].
Proof.
  induction s as [|c' s IH]; [done|]. cbn [has_char split].
  intros [Hc Hs]%orb_false_iff. rewrite Hc. by rewrite (IH Hs).
Qed.

Lemma split_at_separator (c : ascii) (before after : string) :
  has_char c before = false ->
  split c (before +:+ String c after) = before :: split c after.
Proof.
  induction before as [|c' before IH]; simpl.
  - intros _. by rewrite Ascii.eqb_refl.
  - intros [Hc Hs]%orb_false_iff. rewrite Hc. by rewrite (IH Hs).
Qed.

(** X15. How a path segment is split: a segment without a colon is its own
    root and has no scope; in [field:scope] the root is the field and the
    scope is what follows the colon, up to a second colon if there is one
    (so the scope of [field:] is the empty string, which counts as no
    scope). *)
Theorem path_segment_decoding (field : string) :
  has_char ":" field = false ->
  path_root field = field
  /\ path_scope field = None
  /\ forall scope,
       path_root (field +:+ ":" +:+ scope) = field
       /\ path_scope (field +:+ ":" +:+ scope) = Some (path_root scope)
       /\ (has_char ":" scope = false -> path_root scope = scope).
Proof.
  intros Hfield. unfold path_root, path_scope.
  rewrite (split_without_separator _ _ Hfield). repeat split.
  - change (":" +:+ scope) with (String ":" scope).
    by rewrite (split_at_separator _ _ _ Hfield).
  - change (":" +:+ scope) with (String ":" scope).
    rewrite (split_at_separator _ _ _ Hfield). cbn [nth_error].
    destruct scope as [|c scope]; [done|]. cbn [split].
    destruct (Ascii.eqb c ":"); [done|]. by destruct (split ":" scope).
  - intros Hscope. by rewrite (split_without_separator _ _ Hscope).
Qed.

(** *** Subselects *)

Lemma obeys_deferred_call (P P' : clause -> Prop) (E E' : exception -> Prop)
    (body : M unit) (registered : exception + list clause -> clause) :
  obeys P' E' body ->
  (forall calls, Forall P' calls -> P (registered (inr calls))) ->
  (forall e, P (registered (inl e))) ->
  obeys P E (outcome <- deferred body ;; call (registered outcome)).
Proof.
  intros Hbody Hcalls Herror s. unfold bind, deferred, call.
  destruct (Hbody (mkState [] (aliasMap s) (drawn s)))
    as [(calls & Hl & HF) _].
  destruct (body _) as [[e|[]] s1]; cbn [fst snd dbQuery] in *.
  - split; [|discriminate]. eexists [_]. split; [done|]. by repeat constructor.
  - split; [|discriminate]. eexists [_]. split; [done|].
    repeat constructor. apply Hcalls. by rewrite Hl.
Qed.


Lemma subselect_free_all (calls : list clause) :
  Forall is_subselect_free calls -> forallb subselect_free calls = true.
Proof. induction 1 as [|c calls Hc _ IH]; [done|]. cbn. by rewrite Hc, IH. Qed.

Lemma subselects_flat_all (calls : list clause) :
  Forall has_flat_subselects calls -> forallb subselects_flat calls = true.
Proof. induction 1 as [|c calls Hc _ IH]; [done|]. cbn. by rewrite Hc, IH. Qed.

Ltac deep_side :=
  solve
    [ reflexivity
    | exact I
    | intros; exact I
    | intros ? ?; by apply subselect_free_all
    | intros ? ?; by apply subselects_flat_all ].

Ltac deep_step :=
  first
    [ apply obeys_ret
    | apply obeys_when
    | apply obeys_get_aliasMap
    | apply obeys_set_aliasMap
    | apply obeys_draw_alias
    | apply obeys_call; deep_side
    | apply obeys_primary_of; deep_side
    | apply obeys_throw; deep_side
    | apply obeys_lift; deep_side
    | apply obeys_with_aliasMap
    | match goal with
      | |- obeys ?P ?E (bind (deferred _) _) =>
          apply (obeys_deferred_call P P E E); [|deep_side..]
      end
    | apply obeys_bind; [|intros ?]
    | match goal with
      | |- obeys _ _ (if ?b then _ else _) => destruct b
      | |- obeys _ _ (match ?x with _ => _ end) => destruct x
      end ].

Lemma applyFilterToQuery_subselect_free key operator compareValue logical :
  obeys is_subselect_free anything
    (applyFilterToQuery key operator compareValue logical).
Proof. unfold applyFilterToQuery. cbv zeta. repeat deep_step. Qed.

Lemma applyFilterToQuery_flat key operator compareValue logical :
  obeys has_flat_subselects anything
    (applyFilterToQuery key operator compareValue logical).
Proof. unfold applyFilterToQuery. cbv zeta. repeat deep_step. Qed.

Lemma addJoin_followRelation_deep (P : clause -> Prop) subQuery pathParts
    parentCollection parentAlias :
  (forall c, is_join c -> P c) ->
  obeys P anything
    (addJoin_followRelation subQuery pathParts parentCollection parentAlias).
Proof.
  intros HP. eapply obeys_weaken; [exact HP| |
    apply addJoin_followRelation_kinds]. done.
Qed.

Lemma getWhereColumn_followRelation_deep (P : clause -> Prop) pathParts
    parentCollection parentAlias :
  obeys P anything
    (getWhereColumn_followRelation pathParts parentCollection parentAlias).
Proof.
  revert parentCollection parentAlias.
  induction pathParts as [|part rest IH]; intros parentCollection parentAlias;
    cbn [getWhereColumn_followRelation]; cbv zeta.
  - by apply obeys_throw.
  - repeat first [ apply IH | deep_step ].
Qed.

Lemma subquery_passes_subselect_free (filter : value) :
  forall collection,
    obeys is_subselect_free anything (addJoins true filter collection)
    /\ forall logical,
         obeys is_subselect_free anything
           (addWhereClauses true filter collection logical).
Proof.
  pose (P := fun filter => forall collection,
    obeys is_subselect_free anything (addJoins true filter collection)
    /\ forall logical,
         obeys is_subselect_free anything
           (addWhereClauses true filter collection logical)).
  enough (H : P filter
              /\ forall items, filter = VArr items -> Forall P items)
    by apply H.
  induction filter as [| | b | n | s | items IH | props IH]
    using value_nested_ind;
    (split; [|try discriminate]).
  1-6: intros collection;
       (split; [|intros logical]); cbn [addJoins addWhereClauses];
       repeat deep_step.
  - intros ? [= <-]. eapply Forall_impl; [exact IH|]. by intros ? [? _].
  - intros collection. split; [|intros logical].
    + cbn [addJoins]. apply obeys_forEach.
      eapply Forall_impl; [exact IH|]. intros [key value] [_ Hsub].
      cbn [snd] in Hsub.
      destruct (is_combinator key).
      * destruct value; try (by apply obeys_throw).
        repeat deep_step.
        apply obeys_forEach. eapply Forall_impl; [exact (Hsub _ eq_refl)|].
        intros sub Hs. apply Hs.
      * repeat first
          [ apply addJoin_followRelation_deep; by intros []
          | deep_step ].
    + cbn [addWhereClauses]. apply obeys_forEach.
      eapply Forall_impl; [exact IH|]. intros [key value] [Hval Hsub].
      cbn [snd] in Hval, Hsub.
      destruct (is_combinator key).
      * apply obeys_bind; [repeat deep_step|]. intros [|]; [apply obeys_ret|].
        apply (obeys_deferred_call _ is_subselect_free _ anything);
          [|deep_side..].
        destruct value; try (by apply obeys_throw).
        apply obeys_forEach. eapply Forall_impl; [exact (Hsub _ eq_refl)|].
        intros sub Hs. apply Hs.
      * apply obeys_bind; [by apply obeys_lift|]. intros filterPath.
        apply obeys_bind; [by apply obeys_lift|]. intros operation.
        cbv zeta.
        assert (Hplain : obeys is_subselect_free anything
          (if (1 <? List.length filterPath)%nat then
             columnName <- getWhereColumn filterPath collection ;;
             match columnName with
             | None => ret tt
             | Some columnName =>
                 applyFilterToQuery columnName (fst operation) (snd operation)
                   logical
             end
           else
             applyFilterToQuery (collection +:+ "." +:+ hd key filterPath)
               (fst operation) (snd operation) logical)).
        { repeat first
            [ apply getWhereColumn_followRelation_deep
            | apply applyFilterToQuery_subselect_free
            | deep_step ]. }
        destruct (find_relation collection (path_root (hd key filterPath)))
          as [relation|]; [|exact Hplain].
        destruct (getRelationType relation collection _) as [[| |]|];
          try exact Hplain.
        apply obeys_ret.
Qed.

Lemma filter_passes_flat (filter : value) :
  forall subQuery collection,
    obeys has_flat_subselects anything (addJoins subQuery filter collection)
    /\ forall logical,
         obeys has_flat_subselects anything
           (addWhereClauses subQuery filter collection logical).
Proof.
  pose (P := fun filter => forall subQuery collection,
    obeys has_flat_subselects anything (addJoins subQuery filter collection)
    /\ forall logical,
         obeys has_flat_subselects anything
           (addWhereClauses subQuery filter collection logical)).
  enough (H : P filter
              /\ forall items, filter = VArr items -> Forall P items)
    by apply H.
  induction filter as [| | b | n | s | items IH | props IH]
    using value_nested_ind;
    (split; [|try discriminate]).
  1-6: intros subQuery collection;
       (split; [|intros logical]); cbn [addJoins addWhereClauses];
       repeat deep_step.
  - intros ? [= <-]. eapply Forall_impl; [exact IH|]. by intros ? [? _].
  - intros subQuery collection. split; [|intros logical].
    + cbn [addJoins]. apply obeys_forEach.
      eapply Forall_impl; [exact IH|]. intros [key value] [_ Hsub].
      cbn [snd] in Hsub.
      destruct (is_combinator key).
      * destruct value; try (by apply obeys_throw).
        repeat deep_step.
        apply obeys_forEach. eapply Forall_impl; [exact (Hsub _ eq_refl)|].
        intros sub Hs. apply Hs.
      * repeat first
          [ apply addJoin_followRelation_deep; by intros []
          | deep_step ].
    + cbn [addWhereClauses]. apply obeys_forEach.
      eapply Forall_impl; [exact IH|]. intros [key value] [Hval Hsub].
      cbn [snd] in Hval, Hsub.
      destruct (is_combinator key).
      * apply obeys_bind; [repeat deep_step|]. intros [|]; [apply obeys_ret|].
        apply (obeys_deferred_call _ has_flat_subselects _ anything);
          [|deep_side..].
        destruct value; try (by apply obeys_throw).
        apply obeys_forEach. eapply Forall_impl; [exact (Hsub _ eq_refl)|].
        intros sub Hs. apply Hs.
      * apply obeys_bind; [by apply obeys_lift|]. intros filterPath.
        apply obeys_bind; [by apply obeys_lift|]. intros operation.
        cbv zeta.
        assert (Hplain : obeys has_flat_subselects anything
          (if (1 <? List.length filterPath)%nat then
             columnName <- getWhereColumn filterPath collection ;;
             match columnName with
             | None => ret tt
             | Some columnName =>
                 applyFilterToQuery columnName (fst operation) (snd operation)
                   logical
             end
           else
             applyFilterToQuery (collection +:+ "." +:+ hd key filterPath)
               (fst operation) (snd operation) logical)).
        { repeat first
            [ apply getWhereColumn_followRelation_deep
            | apply applyFilterToQuery_flat
            | deep_step ]. }
        destruct (find_relation collection (path_root (hd key filterPath)))
          as [relation|]; [|exact Hplain].
        destruct (getRelationType relation collection _) as [[| |]|];
          try exact Hplain.
        destruct subQuery; [apply obeys_ret|].
        apply obeys_bind; [by apply obeys_primary_of|]. intros pk. cbv zeta.
        apply (obeys_deferred_call _ is_subselect_free _ anything);
          [|deep_side..].
        destruct (subquery_passes_subselect_free value
                    (Relation.collection relation)) as [Hj Hw].
        unfold applyQuery_body.
        cbn [filter_only Query.sort Query.limit Query.offset Query.page
               Query.filter Query.search Query.group Query.aggregate
               truthy_num truthy_str andb].
        repeat first [ exact Hj | apply Hw | deep_step ].
Qed.

(** X16. In subquery mode [applyFilter] registers no subselect, at any
    depth of grouping; and in either mode every subselect it registers, at
    any depth of grouping, is itself free of subselects: the SQL it asks for
    never nests [IN (SELECT ...)] inside [IN (SELECT ...)]. *)
Theorem subselects_never_nest (rootFilter : value) (collection : string)
    (subQuery : bool) (s : state) :
  (exists added,
     dbQuery (snd (applyFilter rootFilter collection true s))
     = dbQuery s ++ added
     /\ forallb subselect_free added = true)
  /\ exists added,
       dbQuery (snd (applyFilter rootFilter collection subQuery s))
       = dbQuery s ++ added
       /\ forallb subselects_flat added = true.
Proof.
  split.
  - destruct (subquery_passes_subselect_free rootFilter collection)
      as [Hj Hw].
    assert (Hf : obeys is_subselect_free anything
                   (applyFilter rootFilter collection true)).
    { unfold applyFilter. apply obeys_with_aliasMap.
      apply obeys_bind; [exact Hj | intros _; apply Hw]. }
    destruct (Hf s) as [(added & Hadded & HF) _].
    exists added. split; [done|]. by apply subselect_free_all.
  - destruct (filter_passes_flat rootFilter subQuery collection) as [Hj Hw].
    assert (Hf : obeys has_flat_subselects anything
                   (applyFilter rootFilter collection subQuery)).
    { unfold applyFilter. apply obeys_with_aliasMap.
      apply obeys_bind; [exact Hj | intros _; apply Hw]. }
    destruct (Hf s) as [(added & Hadded & HF) _].
    exists added. split; [done|]. by apply subselects_flat_all.
Qed.

End Compiler.

(** ** The compiler on the example schema *)

#[local] Abbreviation addJoinsE :=
  (addJoins Example.generateAlias Example.schema).
#[local] Abbreviation addWhereClausesE :=
  (addWhereClauses Example.generateAlias Example.unchanged Example.unchanged
     Example.not_a_number Example.not_a_uuid Example.schema).
#[local] Abbreviation applyFilterE :=
  (applyFilter Example.generateAlias Example.unchanged Example.unchanged
     Example.not_a_number Example.not_a_uuid Example.schema).
#[local] Abbreviation applyQueryE :=
  (applyQuery Example.generateAlias Example.unchanged Example.unchanged
     Example.not_a_number Example.not_a_uuid Example.schema).

(** Chains of many-to-one hops of the example schema. *)
Lemma example_author_company :
  m2o_chain Example.schema "articles" ["author"; "company"] "companies".
Proof.
  eapply chain_hop; [vm_compute; reflexivity..|].
  eapply chain_hop; [vm_compute; reflexivity..|].
  apply chain_end.
Qed.



(** C1 on [{ articles: { author: { name: { _eq: 'Rijk' } } } }] over pages. *)
Lemma o2m_leaf_decorrelated_witness :
  let value :=
    Example.nested "author"
      (Example.nested "name" (Example.leaf "_eq" (VStr "Rijk"))) in
  addWhereClausesE false (VObj [("articles", value)]) "pages" And
    Example.initial
  = (subselect <- deferred
       (call (Select "page_id" "articles.page_id") ;;
        call (From "articles") ;;
        applyQueryE "articles" (filter_only value) true) ;;
     call (WhereInSubquery And "pages.id" subselect) ;;
     addWhereClausesE false (VObj []) "pages" And) Example.initial
  /\ exists s',
       dbQuery s' = dbQuery Example.initial
       /\ addJoinsE false (VObj [("articles", value)]) "pages" Example.initial
          = addJoinsE false (VObj []) "pages" s'.
Proof.
  apply (o2m_leaf_decorrelated Example.generateAlias Example.unchanged
           Example.unchanged Example.not_a_number Example.not_a_uuid
           Example.schema "articles" _ [] "pages" And
           (Example.relation "articles" "page_id" (Some "pages")
              (Some "articles") None)
           ["articles"; "author"; "name"] ("_eq", VStr "Rijk")
           Example.keyed_by_id Example.initial);
    vm_compute; reflexivity.
Defined.

(** C4 on [{ _or: [{}, { status: { _eq: 'draft' } }] }]. *)
Lemma or_with_empty_branch_skipped_witness :
  applyFilterE
    (VObj [("_or",
            VArr [VObj [];
                  Example.nested "status" (Example.leaf "_eq" (VStr "draft"))])])
    "pages" false Example.initial
  = (inr tt, Example.initial).
Proof.
  apply (or_with_empty_branch_skipped Example.generateAlias Example.unchanged
           Example.unchanged Example.not_a_number Example.not_a_uuid
           Example.schema false _ [] "pages" And Example.initial).
  - repeat constructor; eexists; reflexivity.
  - left. reflexivity.
Defined.






(** C2 (amended) on [{ author: { company: { name: { _eq: 'Acme' } } } }]
    over articles: two joins, and the predicate on the second alias. *)
Lemma m2o_chain_joins_and_terminal_alias_witness :
  let value :=
    Example.nested "company"
      (Example.nested "name" (Example.leaf "_eq" (VStr "Acme"))) in
  let joins :=
    [LeftJoin "aaaaa" "authors" "articles.author" "aaaaa.id";
     LeftJoin "baaaa" "companies" "aaaaa.company" "baaaa.id"] in
  let aliases :=
    aliasMap (snd (addJoinsE false (VObj [("author", value)]) "articles"
                     Example.initial)) in
  compile (addJoinsE false (VObj [("author", value)]) "articles") = inr joins
  /\ compile (applyFilterE (VObj [("author", value)]) "articles" false)
     = inr (joins ++ [Where And (Selection (Ref "baaaa" (Some "name"))) "="
                        (Val (VStr "Acme"))])
  /\ to_alias (get aliases ["author"; "company"; "name"]) = Some "aaaaa"
  /\ to_alias (get aliases ["aaaaa"; "company"; "name"]) = Some "baaaa".
Proof.
  cbv zeta.
  destruct (m2o_chain_joins_and_terminal_alias Example.generateAlias
              Example.unchanged Example.unchanged Example.not_a_number
              Example.not_a_uuid Example.schema false "author"
              (Example.nested "company"
                 (Example.nested "name" (Example.leaf "_eq" (VStr "Acme"))))
              "articles" ["author"; "company"] "name" "companies"
              ("_eq", VStr "Acme") And Example.initial)
    as (_ & _ & Hjoins & _ & Hfilter & Hrecorded).
  - reflexivity.
  - reflexivity.
  - reflexivity.
  - discriminate.
  - exact example_author_company.
  - reflexivity.
  - split; [|repeat constructor; discriminate].
    apply (bool_decide_unpack _). vm_compute. reflexivity.
  - unfold compile. change (mkState [] (AObj ∅) 0%nat) with Example.initial.
    rewrite Hjoins, Hfilter. cbn [snd].
    split; [vm_compute; reflexivity|]. split; [vm_compute; reflexivity|].
    split.
    + exact (Hrecorded [] "author" ["company"] eq_refl).
    + exact (Hrecorded ["author"] "company" [] eq_refl).
Defined.

(** C2: two leaves under the same prefix [author] are joined twice, under
    two aliases, and each predicate uses the alias drawn for its own leaf. *)
Lemma shared_prefix_joined_twice :
  compile
    (applyFilterE
       (VObj [("_and",
               VArr [Example.nested "author"
                       (Example.nested "name" (Example.leaf "_eq" (VStr "a")));
                     Example.nested "author"
                       (Example.nested "age" (Example.leaf "_eq" (VNum 3)))])])
       "articles" false)
  = inr [LeftJoin "aaaaa" "authors" "articles.author" "aaaaa.id";
         LeftJoin "baaaa" "authors" "articles.author" "baaaa.id";
         WhereWrapped And
           (inr [Where And (Selection (Ref "aaaaa" (Some "name"))) "="
                   (Val (VStr "a"));
                 Where And (Selection (Ref "baaaa" (Some "age"))) "="
                   (Val (VNum 3))])]
  /\ Example.generateAlias 0 <> Example.generateAlias 1.
Proof. split; [vm_compute; reflexivity | discriminate]. Qed.





(** ** The further properties on the example schema *)

(** X1 on [{ author: { company: { name: { _eq: 'Acme' } } } }]. *)
Lemma nested_leaf_read_back_witness :
  getFilterPath "author" (nest ["company"; "name"] "_eq" (VStr "Acme"))
  = inr ["author"; "company"; "name"]
  /\ getOperation "author" (nest ["company"; "name"] "_eq" (VStr "Acme"))
     = inr ("_eq", VStr "Acme").
Proof.
  apply (nested_leaf_read_back "author" ["company"; "name"] "_eq"
           (VStr "Acme"));
    [reflexivity | repeat constructor | reflexivity | reflexivity].
Defined.

(** X3 on [{ author: { name: { _eq: 'Rijk' }, age: { _gt: 30 } } }] over
    articles: the [age] predicate is not compiled. *)
Lemma nested_siblings_ignored_witness :
  let name := Example.leaf "_eq" (VStr "Rijk") in
  let age := Example.leaf "_gt" (VNum 30) in
  addJoinsE false (VObj [("author", VObj [("name", name); ("age", age)])])
    "articles" Example.initial
  = addJoinsE false (VObj [("author", VObj [("name", name)])]) "articles"
      Example.initial
  /\ addWhereClausesE false
       (VObj [("author", VObj [("name", name); ("age", age)])]) "articles"
       And Example.initial
     = addWhereClausesE false (VObj [("author", VObj [("name", name)])])
         "articles" And Example.initial.
Proof.
  apply (nested_siblings_ignored Example.generateAlias Example.unchanged
           Example.unchanged Example.not_a_number Example.not_a_uuid
           Example.schema false "author" "name" _ _ [] "articles" And
           Example.initial); [reflexivity | reflexivity |].
  right. intros relation H. vm_compute in H.
  injection H as <-. vm_compute. discriminate.
Defined.


(** X5 on the path [articles.title] from pages, in subquery mode. *)
Lemma o2m_in_subquery_joined_not_filtered_witness :
  addJoin_followRelation Example.generateAlias Example.schema true
    ["articles"; "title"] "pages" None Example.initial
  = addJoin_followRelation Example.generateAlias Example.schema true
      ["title"] "articles" (Some "aaaaa")
      (mkState [LeftJoin "aaaaa" "articles" "pages.id" "aaaaa.page_id"]
         (set (AObj ∅) ["articles"; "title"] "aaaaa") 1%nat)
  /\ addWhereClausesE true
       (VObj [("articles",
               Example.nested "title" (Example.leaf "_eq" (VStr "x")))])
       "pages" And Example.initial
     = addWhereClausesE true (VObj []) "pages" And Example.initial.
Proof.
  destruct (o2m_in_subquery_joined_not_filtered Example.generateAlias
              Example.unchanged Example.unchanged Example.not_a_number
              Example.not_a_uuid Example.schema "articles" ["title"] "pages"
              None
              (Example.relation "articles" "page_id" (Some "pages")
                 (Some "articles") None)
              Example.keyed_by_id Example.initial) as [Hjoin Hwhere];
    [vm_compute; reflexivity..|].
  split; [exact Hjoin|].
  eapply Hwhere; reflexivity.
Defined.

(** X6 on [{ _or: [{ title: { _eq: 'x' } }, { nothing: { here: 1 } }] }]:
    the second branch raises, inside the group. *)
Lemma logical_group_deferred_witness :
  let filter :=
    VObj [("_or",
           VArr [Example.nested "title" (Example.leaf "_eq" (VStr "x"));
                 Example.nested "nothing"
                   (Example.nested "here" (VNum 1))])] in
  fst (addWhereClausesE false filter "pages" And Example.initial) = inr tt
  /\ exists outcome,
       dbQuery (snd (addWhereClausesE false filter "pages" And
                       Example.initial))
       = dbQuery Example.initial ++ [WhereWrapped And outcome].
Proof.
  apply (proj2 (logical_group_deferred Example.generateAlias
                  Example.unchanged Example.unchanged Example.not_a_number
                  Example.not_a_uuid Example.schema false VNull _ "pages"
                  And Example.initial)).
  reflexivity.
Defined.

(** X7 on the operator [_regex]. *)
Lemma unknown_operator_ignored_witness :
  applyFilterToQuery "pages.title" "_regex" (VStr "^a") And Example.initial
  = (inr tt, Example.initial).
Proof.
  apply (unknown_operator_ignored "pages.title" "_regex" (VStr "^a") And
           Example.initial).
  reflexivity.
Defined.

(** X14 on [{ limit: 20, search: 'x', group: ['status'] }] over a collection
    the schema does not have. *)
Lemma applyQuery_without_filter_returns_witness :
  fst (applyQueryE "drafts"
         {| Query.sort := None; Query.limit := Some 20;
            Query.offset := None; Query.page := None;
            Query.filter := VUndefined; Query.search := Some "x";
            Query.group := Some ["status"]; Query.aggregate := None |}
         false Example.initial)
  = inr tt.
Proof.
  apply (applyQuery_without_filter_returns Example.generateAlias
           Example.unchanged Example.unchanged Example.not_a_number
           Example.not_a_uuid Example.schema "drafts" _ false
           Example.initial).
  reflexivity.
Defined.

(** X15 on [item] and [item:articles]. *)
Lemma path_segment_decoding_witness :
  path_root "item" = "item"
  /\ path_scope "item" = None
  /\ path_root "item:articles" = "item"
  /\ path_scope "item:articles" = Some "articles".
Proof.
  destruct (path_segment_decoding "item" eq_refl)
    as (Hroot & Hscope & Hscoped).
  destruct (Hscoped "articles") as (Hroot' & Hscope' & _).
  exact (conj Hroot (conj Hscope (conj Hroot' Hscope'))).
Defined.

(** [_null] with the comparand [true]. *)
Lemma null_tests_without_false_witness :
  applyFilterToQuery "pages.title" "_null" (VBool true) And Example.initial
  = (inr tt,
     mkState [WhereNull And (Selection (getColumn "pages" (Some "title")))]
       (AObj ∅) 0%nat)
  /\ applyFilterToQuery "pages.title" "_nnull" (VBool true) And
       Example.initial
     = (inr tt,
        mkState
          [WhereNotNull And (Selection (getColumn "pages" (Some "title")))]
          (AObj ∅) 0%nat).
Proof.
  apply (null_tests_without_false "pages.title" (VBool true) And
           Example.initial).
  reflexivity.
Defined.

(** ** The filter emitter *)

Lemma emit_step_rejected {error : Type}
    (listeners : list (@Emitter.AsyncListener error)) (args : list value)
    (e : error) :
  fold_left (Emitter.step args) listeners (inl e) = inl e.
Proof. by induction listeners. Qed.

(** X17. Emitting a filter over two lists of listeners put together is
    emitting it over the first and then, with the payload obtained, over the
    second; a listener that throws or rejects ends the chain with its error,
    whatever listeners follow. *)
Theorem emitFilter_composes {error : Type}
    (first second : list (@Emitter.AsyncListener error)) (payload : value)
    (args : list value) :
  Emitter.emitFilter (first ++ second) payload args
  = match Emitter.emitFilter first payload args with
    | inl e => inl e
    | inr current => Emitter.emitFilter second current args
    end
  /\ forall failing current e,
       Emitter.emitFilter first payload args = inr current ->
       failing current args = inl e ->
       Emitter.emitFilter (first ++ failing :: second) payload args = inl e.
Proof.
  assert (Happ : forall l1 l2 : list (@Emitter.AsyncListener error),
    Emitter.emitFilter (l1 ++ l2) payload args
    = match Emitter.emitFilter l1 payload args with
      | inl e => inl e
      | inr current => Emitter.emitFilter l2 current args
      end).
  { intros l1 l2. unfold Emitter.emitFilter. rewrite fold_left_app.
    destruct (fold_left _ l1 _) as [e|current]; [|done].
    apply emit_step_rejected. }
  split; [apply Happ|].
  intros failing current e Hfirst Hfail. rewrite Happ, Hfirst.
  unfold Emitter.emitFilter. cbn [fold_left Emitter.step]. rewrite Hfail.
  apply emit_step_rejected.
Qed.

(** X18. A payload that is not [undefined] never becomes [undefined], and
    no value is made up: what [emitFilter] resolves with is the initial
    payload, or else the result that one of the listeners returned for the
    payload it was handed (an [undefined] result being replaced by the
    current payload). *)
Theorem emitFilter_keeps_payload_defined {error : Type}
    (listeners : list (@Emitter.AsyncListener error)) (payload : value)
    (args : list value) (result : value) :
  is_undefined payload = false ->
  Emitter.emitFilter listeners payload args = inr result ->
  is_undefined result = false
  /\ (result = payload
      \/ exists listener current,
           In listener listeners /\ listener current args = inr result).
Proof.
  unfold Emitter.emitFilter. revert payload.
  induction listeners as [|listener listeners IH]; intros payload Hdefined.
  - intros [= <-]. split; [done | by left].
  - cbn [fold_left Emitter.step].
    destruct (listener payload args) as [e|r] eqn:Hr.
    + by rewrite emit_step_rejected.
    + destruct (is_undefined r) eqn:Hu.
      * intros Hrest. destruct (IH payload Hdefined Hrest)
          as [Hres [->|(l & c & Hin & Hl)]].
        -- split; [done | by left].
        -- split; [done|]. right. exists l, c. split; [by right | done].
      * intros Hrest. destruct (IH r Hu Hrest)
          as [Hres [->|(l & c & Hin & Hl)]].
        -- split; [done|]. right. exists listener, payload.
           split; [by left | done].
        -- split; [done|]. right. exists l, c. split; [by right | done].
Qed.

(** X19. A listener that returns nothing, whatever the payload, can be left
    out: with and without it [emitFilter] gives the same result. *)
Theorem emitFilter_silent_listener {error : Type}
    (before after : list (@Emitter.AsyncListener error))
    (silent : @Emitter.AsyncListener error) (payload : value)
    (args : list value) :
  (forall current, silent current args = inr VUndefined) ->
  Emitter.emitFilter (before ++ silent :: after) payload args
  = Emitter.emitFilter (before ++ after) payload args.
Proof.
  intros Hsilent. unfold Emitter.emitFilter. rewrite !fold_left_app.
  cbn [fold_left]. f_equal.
  destruct (fold_left _ before _) as [e|current]; [done|].
  cbn [Emitter.step]. by rewrite Hsilent.
Qed.

(** X18 on a payload handed to a listener that returns nothing and then to
    one that replaces it. *)
Lemma emitFilter_keeps_payload_defined_witness :
  let silent : @Emitter.AsyncListener value := fun _ _ => inr VUndefined in
  let replacing : @Emitter.AsyncListener value :=
    fun _ _ => inr (VStr "changed") in
  Emitter.emitFilter [silent; replacing] (VNum 1) [] = inr (VStr "changed")
  /\ is_undefined (VStr "changed") = false
  /\ (VStr "changed" = VNum 1
      \/ exists listener current,
           In listener [silent; replacing]
           /\ listener current [] = inr (VStr "changed")).
Proof.
  split; [reflexivity|].
  apply (emitFilter_keeps_payload_defined (error := value)
           [fun _ _ => inr VUndefined; fun _ _ => inr (VStr "changed")]
           (VNum 1) [] (VStr "changed"));
    reflexivity.
Defined.

(** X19 on a listener that returns nothing, between one that renames the
    payload and one that rejects. *)
Lemma emitFilter_silent_listener_witness :
  Emitter.emitFilter (error := value)
    ([fun _ _ => inr (VStr "renamed")]
     ++ (fun _ _ => inr VUndefined) :: [fun current _ => inl current])
    (VNum 1) []
  = Emitter.emitFilter
      ([fun _ _ => inr (VStr "renamed")] ++ [fun current _ => inl current])
      (VNum 1) [].
Proof.
  apply (emitFilter_silent_listener (error := value)
           [fun _ _ => inr (VStr "renamed")] [fun current _ => inl current]
           (fun _ _ => inr VUndefined) (VNum 1) []).
  intros current. reflexivity.
Defined.
